(** * protoc-gen-example: the schema-to-Go-struct generator

    A shallow embedding of [protocol-buffers/protoc-gen-example/main.go]
    and the properties of its driver ([Generate]), file and message
    emitters ([generateFile], [generateMessage]), type resolver
    ([getGoType], [getTypeName]) and identifier normalizer ([camelCase]).

    Go strings are byte sequences: they are modelled by [string], whose
    characters ([ascii]) are exactly the 8-bit bytes.  A run-time panic
    (an index or a slice bound out of range) is the result [None]. *)

From Stdlib Require Import Bool Arith NArith ZArith Lia List.
From Stdlib Require Import Ascii String DecimalString.
From Stdlib Require Import Permutation.
Import ListNotations.

Local Open Scope string_scope.
Local Open Scope bool_scope.

(** ** Bytes and Go's string primitives *)

Module GoString.

(** Characters that cannot be written inside a literal. *)
Definition LF : ascii := "010"%char.
Definition TAB : ascii := "009"%char.
Definition DQUOTE : ascii := "034"%char.
Definition nl : string := String LF "".
Definition tab : string := String TAB "".
Definition dquote : string := String DQUOTE "".

(** [uint8] arithmetic: a byte is its value in [0, 256). *)
Definition byte_val (c : ascii) : N := N_of_ascii c.

(** [c - k] on [uint8], with the wrap-around written out. *)
Definition byte_sub (c : ascii) (k : N) : ascii :=
  ascii_of_N ((byte_val c + 256 - k mod 256) mod 256).

(** [c >= lo && c <= hi] on bytes. *)
Definition byte_between (lo hi c : ascii) : bool :=
  (byte_val lo <=? byte_val c)%N && (byte_val c <=? byte_val hi)%N.

(** The conversion [string(c)] of a byte: Go converts an integer to the
    UTF-8 encoding of the code point of that value, so a byte below 128
    gives the one-byte string and a byte from 128 up gives two bytes. *)
Definition string_of_byte (c : ascii) : string :=
  let n := byte_val c in
  if (n <? 128)%N then String c ""
  else String (ascii_of_N (192 + n / 64))
              (String (ascii_of_N (128 + n mod 64)) "").

(** [s[i]]: panics when [i] is out of range. *)
Definition byte_at (s : string) (i : nat) : option ascii := String.get i s.

(** [s[lo:]]: panics when [lo > len(s)]. *)
Definition slice_from (s : string) (lo : nat) : option string :=
  if (lo <=? String.length s)%nat
  then Some (String.substring lo (String.length s - lo) s)
  else None.

End GoString.
Import GoString.

(** ** Results: [None] is a panic *)

Definition bind {A B : Type} (m : option A) (k : A -> option B) : option B :=
  match m with
  | Some a => k a
  | None => None
  end.

Notation "x <- m ;; k" := (bind m (fun x => k))
  (at level 61, m at next level, right associativity).

(** ** The type resolver's name shortening and the identifier normalizer *)

(** The loop [for i := len(fullName) - 1; i >= 0; i--] of [getTypeName];
    the counter [n] is [i + 1], so [n = 0] is the exit [i = -1]. *)
Fixpoint getTypeName_loop (fullName : string) (n : nat) : option string :=
  match n with
  | O => Some fullName
  | S i =>
      c <- byte_at fullName i ;;
      if Ascii.eqb c "."%char then slice_from fullName (i + 1)
      else getTypeName_loop fullName i
  end.

Definition getTypeName (fullName : string) : option string :=
  getTypeName_loop fullName (String.length fullName).

(** One pass through the body of the loop of [camelCase] on the byte [c]:
    the new [result] and [nextUpper]. *)
Definition camelCase_body (c : ascii) (result : string) (nextUpper : bool)
  : string * bool :=
  if Ascii.eqb c "_"%char then (result, true)
  else if nextUpper then
    if byte_between "a"%char "z"%char c
    then (result ++ string_of_byte (byte_sub c 32), false)
    else (result ++ string_of_byte c, false)
  else (result ++ string_of_byte c, nextUpper).

(** The loop [for i := 0; i < len(s); i++]; every pass consumes one unit of
    [fuel], and [len(s) - i] units are enough. *)
Fixpoint camelCase_loop (fuel : nat) (s : string) (i : nat)
    (result : string) (nextUpper : bool) : option string :=
  if (i <? String.length s)%nat then
    match fuel with
    | O => None
    | S fuel' =>
        c <- byte_at s i ;;
        let '(result', nextUpper') := camelCase_body c result nextUpper in
        camelCase_loop fuel' s (i + 1) result' nextUpper'
    end
  else Some result.

Definition camelCase (s : string) : option string :=
  if String.eqb s "" then Some ""
  else camelCase_loop (String.length s) s 0 "" true.

(** ** Descriptors

    The descriptor and plugin types come from the imported protobuf
    packages [descriptorpb] and [pluginpb].  A record below holds, for every
    field the generator reads, the value its getter returns ([GetName],
    [GetPackage], [GetType], [GetLabel], [GetTypeName]); the repeated
    fields ([Field], [NestedType], [MessageType], [ProtoFile],
    [FileToGenerate]) are Go slices, ranged over in order. *)

(** [descriptorpb.FieldDescriptorProto_Type] is an [int32]; its named
    values carry the numbers descriptor.proto gives them. *)
Definition FieldDescriptorProto_Type : Type := Z.

Definition TYPE_DOUBLE : FieldDescriptorProto_Type := 1%Z.
Definition TYPE_FLOAT : FieldDescriptorProto_Type := 2%Z.
Definition TYPE_INT64 : FieldDescriptorProto_Type := 3%Z.
Definition TYPE_UINT64 : FieldDescriptorProto_Type := 4%Z.
Definition TYPE_INT32 : FieldDescriptorProto_Type := 5%Z.
Definition TYPE_FIXED64 : FieldDescriptorProto_Type := 6%Z.
Definition TYPE_FIXED32 : FieldDescriptorProto_Type := 7%Z.
Definition TYPE_BOOL : FieldDescriptorProto_Type := 8%Z.
Definition TYPE_STRING : FieldDescriptorProto_Type := 9%Z.
Definition TYPE_GROUP : FieldDescriptorProto_Type := 10%Z.
Definition TYPE_MESSAGE : FieldDescriptorProto_Type := 11%Z.
Definition TYPE_BYTES : FieldDescriptorProto_Type := 12%Z.
Definition TYPE_UINT32 : FieldDescriptorProto_Type := 13%Z.
Definition TYPE_ENUM : FieldDescriptorProto_Type := 14%Z.
Definition TYPE_SFIXED32 : FieldDescriptorProto_Type := 15%Z.
Definition TYPE_SFIXED64 : FieldDescriptorProto_Type := 16%Z.
Definition TYPE_SINT32 : FieldDescriptorProto_Type := 17%Z.
Definition TYPE_SINT64 : FieldDescriptorProto_Type := 18%Z.

(** [descriptorpb.FieldDescriptorProto_Label], an [int32] as well. *)
Definition FieldDescriptorProto_Label : Type := Z.

Definition LABEL_OPTIONAL : FieldDescriptorProto_Label := 1%Z.
Definition LABEL_REQUIRED : FieldDescriptorProto_Label := 2%Z.
Definition LABEL_REPEATED : FieldDescriptorProto_Label := 3%Z.

Record FieldDescriptorProto : Type := mkField {
  Field_GetName : string;
  Field_GetLabel : FieldDescriptorProto_Label;
  Field_GetType : FieldDescriptorProto_Type;
  Field_GetTypeName : string
}.

#[local] Unset Elimination Schemes.
Inductive DescriptorProto : Type :=
| mkMessage (name : string) (fields : list FieldDescriptorProto)
            (nested : list DescriptorProto).
#[local] Set Elimination Schemes.


Record FileDescriptorProto : Type := mkFile {
  File_GetName : string;
  File_GetPackage : string;
  File_MessageType : list DescriptorProto
}.

Record CodeGeneratorRequest : Type := mkRequest {
  FileToGenerate : list string;
  ProtoFile : list FileDescriptorProto
}.

Record CodeGeneratorResponse_File : Type := mkResponseFile {
  RespFile_Name : string;
  RespFile_Content : string
}.

(** [pluginpb.CodeGeneratorResponse_Feature], an [int32] with the numbers
    plugin.proto gives its values. *)
Definition CodeGeneratorResponse_Feature : Type := Z.

Definition FEATURE_NONE : CodeGeneratorResponse_Feature := 0%Z.
Definition FEATURE_PROTO3_OPTIONAL : CodeGeneratorResponse_Feature := 1%Z.
Definition FEATURE_SUPPORTS_EDITIONS : CodeGeneratorResponse_Feature := 2%Z.

(** The conversion [uint64(x)] of an [int32]. *)
Definition uint64 (x : Z) : Z := (x mod 2 ^ 64)%Z.

(** [SupportedFeatures] is a [*uint64]: [None] is the nil pointer. *)
Record CodeGeneratorResponse : Type := mkResponse {
  Resp_File : list CodeGeneratorResponse_File;
  Resp_SupportedFeatures : option Z
}.

(** ** The type resolver *)

(** The [switch] compares the kind with its cases in order. *)
Definition getGoType (field : FieldDescriptorProto) : option string :=
  let isRepeated := (Field_GetLabel field =? LABEL_REPEATED)%Z in
  let kind := Field_GetType field in
  baseType <-
    (if (kind =? TYPE_STRING)%Z then Some "string"
     else if (kind =? TYPE_INT32)%Z then Some "int32"
     else if (kind =? TYPE_INT64)%Z then Some "int64"
     else if (kind =? TYPE_UINT32)%Z then Some "uint32"
     else if (kind =? TYPE_UINT64)%Z then Some "uint64"
     else if (kind =? TYPE_BOOL)%Z then Some "bool"
     else if (kind =? TYPE_FLOAT)%Z then Some "float32"
     else if (kind =? TYPE_DOUBLE)%Z then Some "float64"
     else if (kind =? TYPE_BYTES)%Z then Some "[]byte"
     else if (kind =? TYPE_MESSAGE)%Z then
       n <- getTypeName (Field_GetTypeName field) ;; Some ("*" ++ n)
     else if (kind =? TYPE_ENUM)%Z then
       getTypeName (Field_GetTypeName field)
     else Some "interface{}") ;;
  if isRepeated then Some ("[]" ++ baseType) else Some baseType.

(** ** The message emitter *)

(** One pass of the loop over [msg.Field]: the line appended to [code]. *)
Definition generateMessage_field (field : FieldDescriptorProto)
  : option string :=
  fieldName <- camelCase (Field_GetName field) ;;
  fieldType <- getGoType field ;;
  Some (tab ++ fieldName ++ " " ++ fieldType ++ " `json:" ++ dquote
          ++ Field_GetName field ++ dquote ++ "`" ++ nl).

(** The loop [for _, field := range msg.Field]. *)
Fixpoint generateMessage_fields (fields : list FieldDescriptorProto)
    (code : string) : option string :=
  match fields with
  | [] => Some code
  | field :: rest =>
      line <- generateMessage_field field ;;
      generateMessage_fields rest (code ++ line)
  end.

(** The loop [for _, nested := range msg.NestedType]; [gen] is the
    recursive call [generateMessage(nested, msgName+"_")]. *)
Definition generateMessage_nested (gen : DescriptorProto -> option string)
  : list DescriptorProto -> string -> option string :=
  fix loop (l : list DescriptorProto) (code : string) : option string :=
    match l with
    | [] => Some code
    | nested :: rest =>
        out <- gen nested ;;
        loop rest (code ++ out)
    end.

Fixpoint generateMessage (msg : DescriptorProto) (prefix : string)
  : option string :=
  match msg with
  | mkMessage name fields nestedType =>
      let msgName := prefix ++ name in
      let code := "// Generated code for message: " ++ msgName ++ nl in
      let code := code ++ "type " ++ msgName ++ " struct {" ++ nl in
      code <- generateMessage_fields fields code ;;
      let code := code ++ "}" ++ nl ++ nl in
      generateMessage_nested
        (fun nested => generateMessage nested (msgName ++ "_"))
        nestedType code
  end.

(** ** The file emitter *)

(** The loop [for _, msg := range file.MessageType]. *)
Fixpoint generateFile_messages (msgs : list DescriptorProto) (code : string)
  : option string :=
  match msgs with
  | [] => Some code
  | msg :: rest =>
      out <- generateMessage msg "" ;;
      generateFile_messages rest (code ++ out)
  end.

Definition generateFile (file : FileDescriptorProto) : option string :=
  let code := "" in
  let pkgName := File_GetPackage file in
  let pkgName := if String.eqb pkgName "" then "main" else pkgName in
  let code := code ++ "package " ++ pkgName ++ nl ++ nl in
  generateFile_messages (File_MessageType file) code.

(** ** The plugin driver *)

(** The inner loop of [Generate]: the first [f] of the pool with
    [f.GetName() == fileName], or [None] for the nil pointer. *)
Fixpoint Generate_scan (pool : list FileDescriptorProto) (fileName : string)
  : option FileDescriptorProto :=
  match pool with
  | [] => None
  | f :: rest =>
      if String.eqb (File_GetName f) fileName then Some f
      else Generate_scan rest fileName
  end.

(** The outer loop [for _, fileName := range req.FileToGenerate]. *)
Fixpoint Generate_loop (pool : list FileDescriptorProto)
    (names : list string) (resp : CodeGeneratorResponse)
  : option CodeGeneratorResponse :=
  match names with
  | [] => Some resp
  | fileName :: rest =>
      match Generate_scan pool fileName with
      | None => Generate_loop pool rest resp
      | Some file =>
          content <- generateFile file ;;
          Generate_loop pool rest
            (mkResponse
               (Resp_File resp
                  ++ [mkResponseFile (fileName ++ ".generated.go") content])
               (Resp_SupportedFeatures resp))
      end
  end.

Definition Generate (req : CodeGeneratorRequest)
  : option CodeGeneratorResponse :=
  let resp := mkResponse [] None in
  resp <- Generate_loop (ProtoFile req) (FileToGenerate req) resp ;;
  Some (mkResponse (Resp_File resp)
          (Some (uint64 FEATURE_PROTO3_OPTIONAL))).

(** ** Definitions used to state the properties *)

(** Induction over a message descriptor and all the descriptors nested in
    it. *)
Fixpoint DescriptorProto_tree_ind (P : DescriptorProto -> Prop)
    (step : forall name fields nested,
        Forall P nested -> P (mkMessage name fields nested))
    (msg : DescriptorProto) : P msg :=
  match msg with
  | mkMessage name fields nested =>
      step name fields nested
        ((fix all (l : list DescriptorProto) : Forall P l :=
            match l with
            | [] => Forall_nil P
            | m :: rest =>
                Forall_cons m (DescriptorProto_tree_ind P step m) (all rest)
            end) nested)
  end.

(** The byte [c] occurs in [s]. *)
Fixpoint occurs (c : ascii) (s : string) : Prop :=
  match s with
  | "" => False
  | String a rest => a = c \/ occurs c rest
  end.

(** The concatenation of a list of texts, in order. *)
Definition join (l : list string) : string := fold_right String.append "" l.

(** The text of one type definition: the comment line, the opening line
    naming the type, the member lines and the closing brace followed by an
    empty line. *)
Definition type_definition (msgName : string) (members : list string)
  : string :=
  "// Generated code for message: " ++ msgName ++ nl
  ++ "type " ++ msgName ++ " struct {" ++ nl
  ++ join members ++ "}" ++ nl ++ nl.

(** The text of one member: the Go name, the Go type and the annotation
    carrying the schema name of the field. *)
Definition member_line (fieldName fieldType jsonName : string) : string :=
  tab ++ fieldName ++ " " ++ fieldType ++ " `json:" ++ dquote
  ++ jsonName ++ dquote ++ "`" ++ nl.

(** [s] ends with a closing brace line followed by an empty line. *)
Definition ends_with_blank_line (s : string) : Prop :=
  exists body, s = body ++ "}" ++ nl ++ nl.

Module Ident.

Definition is_lower (c : ascii) : bool := byte_between "a"%char "z"%char c.
Definition is_upper (c : ascii) : bool := byte_between "A"%char "Z"%char c.
Definition is_digit (c : ascii) : bool := byte_between "0"%char "9"%char c.

(** The characters of a schema field name: ASCII letters, digits and the
    underscore. *)
Definition is_ident_char (c : ascii) : bool :=
  is_lower c || is_upper c || is_digit c || Ascii.eqb c "_"%char.

Fixpoint is_identifier (s : string) : bool :=
  match s with
  | "" => true
  | String c rest => is_ident_char c && is_identifier rest
  end.

End Ident.
Import Ident.

(** The normalizer as the specification words it: split on underscores,
    capitalize the first character of every segment, concatenate. *)
Module NormalizerSpec.

(** The segments of [s] between underscores (one more than the number of
    underscores; a segment may be empty). *)
Fixpoint split_underscore (s : string) : list string :=
  match s with
  | "" => [""]
  | String c rest =>
      if Ascii.eqb c "_"%char then "" :: split_underscore rest
      else match split_underscore rest with
           | seg :: segs => String c seg :: segs
           | [] => [String c ""]
           end
  end.

Definition upper (c : ascii) : ascii :=
  if is_lower c then ascii_of_nat (nat_of_ascii c - 32) else c.

Definition capitalize (seg : string) : string :=
  match seg with
  | "" => ""
  | String c rest => String (upper c) rest
  end.

Definition spec_camelCase (s : string) : string :=
  join (map capitalize (split_underscore s)).

End NormalizerSpec.
Import NormalizerSpec.

(** The loop of [camelCase] from the bytes still to read: what it appends
    to [result] when it enters them with the flag [nextUpper]. *)
Fixpoint camelCase_from (nextUpper : bool) (s : string) : string :=
  match s with
  | "" => ""
  | String c rest =>
      let '(out, nextUpper') := camelCase_body c "" nextUpper in
      out ++ camelCase_from nextUpper' rest
  end.

(** The type resolver as the specification words it: the fixed table of
    scalar kinds, the nullable reference for a message, the local name for
    an enum, the placeholder otherwise, and the sequence wrapper applied
    last. *)
Module ResolverSpec.

Definition scalar_table : list (FieldDescriptorProto_Type * string) :=
  [(TYPE_STRING, "string"); (TYPE_INT32, "int32"); (TYPE_INT64, "int64");
   (TYPE_UINT32, "uint32"); (TYPE_UINT64, "uint64"); (TYPE_BOOL, "bool");
   (TYPE_FLOAT, "float32"); (TYPE_DOUBLE, "float64");
   (TYPE_BYTES, "[]byte")].

Fixpoint lookup (k : FieldDescriptorProto_Type)
    (table : list (FieldDescriptorProto_Type * string)) : option string :=
  match table with
  | [] => None
  | (key, t) :: rest => if (k =? key)%Z then Some t else lookup k rest
  end.

(** The kinds the resolver knows: the scalar kinds of the table, the
    message kind and the enum kind. *)
Definition is_recognized (k : FieldDescriptorProto_Type) : bool :=
  (k =? TYPE_MESSAGE)%Z || (k =? TYPE_ENUM)%Z ||
  match lookup k scalar_table with Some _ => true | None => false end.

Definition spec_baseType (k : FieldDescriptorProto_Type)
    (localName : string) : string :=
  if (k =? TYPE_MESSAGE)%Z then "*" ++ localName
  else if (k =? TYPE_ENUM)%Z then localName
  else match lookup k scalar_table with
       | Some t => t
       | None => "interface{}"
       end.

Definition spec_wrap (l : FieldDescriptorProto_Label) (base : string)
  : string :=
  if (l =? LABEL_REPEATED)%Z then "[]" ++ base else base.

End ResolverSpec.
Import ResolverSpec.

(** The driver as the specification words it. *)
Module DriverSpec.

(** [f] is the first descriptor of [pool] named [name]. *)
Definition first_match (pool : list FileDescriptorProto) (name : string)
    (f : FileDescriptorProto) : Prop :=
  exists before after,
    pool = (before ++ f :: after)%list /\ File_GetName f = name /\
    forall g, In g before -> File_GetName g <> name.

(** Some descriptor of [pool] is named [name]. *)
Definition matched (pool : list FileDescriptorProto) (name : string)
  : bool :=
  existsb (fun f => String.eqb (File_GetName f) name) pool.

(** [rec] is the record of the requested [name]: the suffixed name and
    the file emitter's text for the first descriptor so named. *)
Definition record_for (pool : list FileDescriptorProto) (name : string)
    (rec : CodeGeneratorResponse_File) : Prop :=
  exists f content,
    first_match pool name f /\ generateFile f = Some content /\
    rec = mkResponseFile (name ++ ".generated.go") content.

End DriverSpec.
Import DriverSpec.

(** The package named in the declaration line. *)
Definition package_of (file : FileDescriptorProto) : string :=
  match File_GetPackage file with
  | "" => "main"
  | p => p
  end.

(** ** Sample descriptors *)

Module Sample.

Definition deep : DescriptorProto := mkMessage "Deep" [] [].
Definition inner : DescriptorProto :=
  mkMessage "Inner" [mkField "zip_code" LABEL_OPTIONAL TYPE_INT32 ""] [deep].
Definition sibling : DescriptorProto := mkMessage "Sibling" [] [].
Definition outer : DescriptorProto :=
  mkMessage "Outer"
    [mkField "user_id" LABEL_OPTIONAL TYPE_STRING "";
     mkField "inner" LABEL_REPEATED TYPE_MESSAGE ".pkg.Outer.Inner"]
    [inner; sibling].

Definition file_a : FileDescriptorProto := mkFile "a.proto" "demo" [outer].
Definition file_nopkg : FileDescriptorProto :=
  mkFile "b.proto" "" [deep; sibling].
Definition file_shadowed : FileDescriptorProto :=
  mkFile "a.proto" "shadowed" [].

Definition request : CodeGeneratorRequest :=
  mkRequest ["b.proto"; "missing.proto"; "a.proto"]
            [file_a; file_nopkg; file_shadowed].

Definition request_unmatched : CodeGeneratorRequest :=
  mkRequest ["missing.proto"; "other.proto"] [file_a; file_nopkg].

End Sample.

(** ** The entry points

    [main] and [debugMode] talk to the process environment.  What they
    read is an [Environment]: the environment variables, the outcome of
    [io.ReadAll(os.Stdin)] and of [os.ReadFile].  What they do is a trace
    of [action]s, in order, and an [outcome].  [proto.Unmarshal] and
    [proto.Marshal] belong to the protobuf library and are parameters. *)

(** A Go pair (value, error): [Err msg] is a non-nil error that prints as
    [msg]. *)
Inductive result (A : Type) : Type :=
| Ok (a : A)
| Err (msg : string).
Arguments Ok {A} a.
Arguments Err {A} msg.

Inductive action : Type :=
| WriteFile (path data : string) (perm : N)
| Stdout (data : string)
| Stderr (data : string).

(** How the process ends: [main] returns, a [panic] unwinds it, or
    [os.Exit(code)]. *)
Inductive outcome : Type :=
| Returned
| Panicked
| Exited (code : Z).

Record Environment : Type := mkEnvironment {
  Getenv : string -> string;
  Stdin_ReadAll : result string;
  ReadFile : string -> result string
}.

(** A computation that writes a trace and either goes on with a value or
    stops the process. *)
Definition IO (A : Type) : Type := list action * (A + outcome).

Definition io_ret {A : Type} (a : A) : IO A := ([], inl a).
Definition io_emit (act : action) : IO unit := ([act], inl tt).
Definition io_stop {A : Type} (o : outcome) : IO A := ([], inr o).
Definition io_bind {A B : Type} (m : IO A) (k : A -> IO B) : IO B :=
  match m with
  | (t, inl a) => let '(t', r) := k a in ((t ++ t')%list, r)
  | (t, inr o) => (t, inr o)
  end.

Notation "x <~ m ;; k" := (io_bind m (fun x => k))
  (at level 61, m at next level, right associativity).
Notation "m ;;; k" := (io_bind m (fun _ => k))
  (at level 61, right associativity).

(** The trace and the outcome of a whole run. *)
Definition io_run (m : IO unit) : list action * outcome :=
  match m with
  | (t, inl _) => (t, Returned)
  | (t, inr o) => (t, o)
  end.

(** The verbs of [fmt] the program uses: [%v] of a [[]string], [%d] of an
    [int] that is a length, and [Println]. *)
Definition fmt_v_strings (l : list string) : string :=
  "[" ++ String.concat " " l ++ "]".
Definition fmt_d (n : nat) : string :=
  NilEmpty.string_of_uint (Nat.to_uint n).
Definition Println (s : string) : IO unit := io_emit (Stdout (s ++ nl)).

Definition plugin_input_path : string := "/tmp/plugin-input.bin".

(** The permission bits [0644]. *)
Definition perm_0644 : N := 420%N.

Section EntryPoints.

Variable Unmarshal : string -> result CodeGeneratorRequest.
Variable Marshal : CodeGeneratorResponse -> result string.

(** A panic inside [Generate] unwinds the caller. *)
Definition call_Generate (req : CodeGeneratorRequest)
  : IO CodeGeneratorResponse :=
  match Generate req with
  | Some resp => io_ret resp
  | None => io_stop Panicked
  end.

(** The loop [for _, file := range resp.File] of [debugMode]. *)
Fixpoint debugMode_files (files : list CodeGeneratorResponse_File)
  : IO unit :=
  match files with
  | [] => io_ret tt
  | file :: rest =>
      io_emit (Stdout (nl ++ "--- " ++ RespFile_Name file ++ " ---" ++ nl)) ;;;
      Println (RespFile_Content file) ;;;
      debugMode_files rest
  end.

Definition debugMode (env : Environment) : IO unit :=
  Println "=== DEBUG MODE ===" ;;;
  data <~ match ReadFile env plugin_input_path with
          | Ok data => io_ret data
          | Err err =>
              io_emit (Stderr ("读取失败: " ++ err ++ nl)) ;;;
              io_emit (Stderr ("请先运行: make save" ++ nl)) ;;;
              io_stop (Exited 1)
          end ;;
  req <~ match Unmarshal data with
         | Ok req => io_ret req
         | Err err =>
             io_emit (Stderr ("解析失败: " ++ err ++ nl)) ;;;
             io_stop (Exited 1)
         end ;;
  io_emit (Stdout ("要生成的文件: "
                   ++ fmt_v_strings (FileToGenerate req) ++ nl)) ;;;
  io_emit (Stdout ("总文件数: "
                   ++ fmt_d (List.length (ProtoFile req)) ++ nl ++ nl)) ;;;
  resp <~ call_Generate req ;;
  Println "========== 生成的代码 ==========" ;;;
  debugMode_files (Resp_File resp).

Definition main (env : Environment) : IO unit :=
  if String.eqb (Getenv env "DEBUG") "1" then debugMode env
  else
    input <~ match Stdin_ReadAll env with
             | Ok input => io_ret input
             | Err _ => io_stop Panicked
             end ;;
    (if String.eqb (Getenv env "SAVE_INPUT") "1"
     then io_emit (WriteFile plugin_input_path input perm_0644)
     else io_ret tt) ;;;
    req <~ match Unmarshal input with
           | Ok req => io_ret req
           | Err _ => io_stop Panicked
           end ;;
    resp <~ call_Generate req ;;
    output <~ match Marshal resp with
              | Ok output => io_ret output
              | Err _ => io_stop Panicked
              end ;;
    io_emit (Stdout output).

End EntryPoints.

(** ** Further definitions used to state the properties *)

(** The number of bytes of [s] that satisfy [p]. *)
Fixpoint count_bytes (p : ascii -> bool) (s : string) : nat :=
  match s with
  | "" => 0
  | String c rest => (if p c then 1 else 0) + count_bytes p rest
  end.

Definition is_underscore (c : ascii) : bool := Ascii.eqb c "_"%char.

(** The bytes from 128 up, which are no ASCII characters. *)
Definition is_high (c : ascii) : bool := (128 <=? byte_val c)%N.

Fixpoint is_ascii_string (s : string) : bool :=
  match s with
  | "" => true
  | String c rest => negb (is_high c) && is_ascii_string rest
  end.

(** The descriptors of the tree of [msg], parents before children and
    children in order, each with the name its definition gets under
    [prefix]. *)
Fixpoint flatten (prefix : string) (msg : DescriptorProto)
  : list (string * list FieldDescriptorProto) :=
  match msg with
  | mkMessage name fields nested =>
      (prefix ++ name, fields)
        :: flat_map (flatten ((prefix ++ name) ++ "_")) nested
  end.

(** [block] is the type definition of the descriptor [(name, fields)]. *)
Definition definition_of (d : string * list FieldDescriptorProto)
    (block : string) : Prop :=
  exists members,
    Forall2 (fun f m => generateMessage_field f = Some m) (snd d) members /\
    block = type_definition (fst d) members.

(** What [debugMode] prints for a decoded request and its response. *)
Definition debug_report (req : CodeGeneratorRequest)
    (resp : CodeGeneratorResponse) : list action :=
  ([Stdout ("=== DEBUG MODE ===" ++ nl);
   Stdout ("要生成的文件: " ++ fmt_v_strings (FileToGenerate req) ++ nl);
   Stdout ("总文件数: " ++ fmt_d (List.length (ProtoFile req)) ++ nl ++ nl);
   Stdout ("========== 生成的代码 ==========" ++ nl)]
   ++ flat_map (fun file =>
                  [Stdout (nl ++ "--- " ++ RespFile_Name file ++ " ---" ++ nl);
                   Stdout (RespFile_Content file ++ nl)])
        (Resp_File resp))%list.

Definition is_Stdout (a : action) : bool :=
  match a with Stdout _ => true | _ => false end.
Definition is_WriteFile (a : action) : bool :=
  match a with WriteFile _ _ _ => true | _ => false end.

(** ** Sample runs

    A stand-in for the wire format, which decodes one byte string, and
    environments of a plugin run, of a run on undecodable input and of
    debug runs. *)

Module SampleRun.

Definition unmarshal (b : string) : result CodeGeneratorRequest :=
  if String.eqb b "<request>" then Ok Sample.request
  else Err "proto: cannot parse invalid wire-format data".

Definition marshal (resp : CodeGeneratorResponse) : result string :=
  Ok (join (map (fun f => RespFile_Name f ++ nl ++ RespFile_Content f)
              (Resp_File resp))).

Definition no_file (path : string) : result string :=
  Err ("open " ++ path ++ ": no such file or directory").

Definition env_plugin : Environment :=
  mkEnvironment (fun key => if String.eqb key "SAVE_INPUT" then "1" else "")
    (Ok "<request>") no_file.

Definition env_garbage : Environment :=
  mkEnvironment (fun key => if String.eqb key "SAVE_INPUT" then "1" else "")
    (Ok "garbage") no_file.

Definition env_debug : Environment :=
  mkEnvironment (fun key => if String.eqb key "DEBUG" then "1" else "")
    (Err "EOF")
    (fun path => if String.eqb path "/tmp/plugin-input.bin"
                 then Ok "<request>" else no_file path).

Definition env_debug_missing : Environment :=
  mkEnvironment (fun key => if String.eqb key "DEBUG" then "1" else "")
    (Ok "<request>") no_file.

End SampleRun.

(** * Properties *)

(** ** Strings *)

Section StringFacts.

Lemma append_nil_r (s : string) : s ++ "" = s.
Proof. induction s as [|c s IH]; simpl; [reflexivity | now rewrite IH]. Qed.

Lemma append_assoc (a b c : string) : (a ++ b) ++ c = a ++ (b ++ c).
Proof. induction a as [|x a IH]; simpl; [reflexivity | now rewrite IH]. Qed.

Lemma length_append (a b : string) :
  String.length (a ++ b) = String.length a + String.length b.
Proof. induction a as [|x a IH]; simpl; [reflexivity | now rewrite IH]. Qed.

Lemma append_snoc (pre : string) (c : ascii) (rest : string) :
  (pre ++ String c "") ++ rest = pre ++ String c rest.
Proof. now rewrite append_assoc. Qed.

(** Reading the byte just after a prefix. *)
Lemma byte_at_append (pre : string) (c : ascii) (rest : string) :
  byte_at (pre ++ String c rest) (String.length pre) = Some c.
Proof. induction pre as [|x pre IH]; simpl; [reflexivity | exact IH]. Qed.

Lemma substring_all (s : string) :
  String.substring 0 (String.length s) s = s.
Proof. induction s as [|c s IH]; simpl; [reflexivity | now rewrite IH]. Qed.

(** Slicing a prefix off. *)
Lemma slice_from_append (pre rest : string) :
  slice_from (pre ++ rest) (String.length pre) = Some rest.
Proof.
  unfold slice_from. rewrite length_append.
  replace (String.length pre <=? String.length pre + String.length rest)%nat
    with true by (symmetry; apply Nat.leb_le; lia).
  f_equal.
  replace (String.length pre + String.length rest - String.length pre)
    with (String.length rest) by lia.
  induction pre as [|x pre IH]; simpl; [apply substring_all | exact IH].
Qed.

End StringFacts.

(** ** Bytes *)

Section ByteFacts.

Lemma string_of_byte_ascii (c : ascii) :
  (byte_val c < 128)%N -> string_of_byte c = String c "".
Proof.
  intros H. unfold string_of_byte.
  now apply N.ltb_lt in H; rewrite H.
Qed.

Lemma byte_between_spec (lo hi c : ascii) :
  byte_between lo hi c = true <->
  (byte_val lo <= byte_val c <= byte_val hi)%N.
Proof.
  unfold byte_between. rewrite andb_true_iff, !N.leb_le. tauto.
Qed.

(** The identifier characters are ASCII. *)
Lemma ident_char_ascii (c : ascii) :
  is_ident_char c = true -> (byte_val c < 128)%N.
Proof.
  unfold is_ident_char, is_lower, is_upper, is_digit.
  rewrite !orb_true_iff, !byte_between_spec, Ascii.eqb_eq.
  intros [[[H|H]|H]|H]; try (cbn in H; lia).
  subst c. reflexivity.
Qed.

(** Subtracting 32 from a lower-case letter gives the upper-case letter:
    the byte subtraction does not wrap, and it is the specification's
    [upper]. *)
Lemma byte_sub_lower (c : ascii) :
  is_lower c = true ->
  byte_sub c 32 = upper c /\ is_upper (upper c) = true.
Proof.
  intros H. unfold upper. rewrite H.
  destruct c as [[] [] [] [] [] [] [] []];
    try discriminate H; split; reflexivity.
Qed.

Lemma upper_not_lower (c : ascii) : is_lower c = false -> upper c = c.
Proof. intros H. unfold upper. now rewrite H. Qed.

Lemma upper_ident (c : ascii) :
  is_ident_char c = true -> c <> "_"%char ->
  is_ident_char (upper c) = true /\ upper c <> "_"%char.
Proof.
  intros Hc Hu. destruct (is_lower c) eqn:Hl.
  - destruct (byte_sub_lower c Hl) as [_ Hup].
    unfold is_ident_char. rewrite Hup. split.
    + now rewrite orb_true_r.
    + intros E. rewrite E in Hup. discriminate Hup.
  - rewrite (upper_not_lower c Hl). now split.
Qed.

End ByteFacts.

(** ** The identifier normalizer *)

Section Normalizer.

(** The body only appends to [result]. *)
Lemma camelCase_body_appends (c : ascii) (result : string) (b : bool) :
  camelCase_body c result b =
  (result ++ fst (camelCase_body c "" b), snd (camelCase_body c "" b)).
Proof.
  unfold camelCase_body.
  destruct (Ascii.eqb c "_"); [now rewrite append_nil_r|].
  destruct b; [destruct (byte_between "a" "z" c)|]; reflexivity.
Qed.

(** The index loop, entered at index [length pre] with enough fuel, reads
    the rest of the string to its end and never indexes out of range. *)
Lemma camelCase_loop_from (rest : string) :
  forall (pre result : string) (b : bool) (fuel : nat),
    String.length rest <= fuel ->
    camelCase_loop fuel (pre ++ rest) (String.length pre) result b =
    Some (result ++ camelCase_from b rest).
Proof.
  induction rest as [|c rest IH]; intros pre result b fuel Hfuel.
  - rewrite append_nil_r.
    destruct fuel; simpl; rewrite Nat.ltb_irrefl, append_nil_r;
      reflexivity.
  - destruct fuel as [|fuel]; [simpl in Hfuel; lia|].
    cbn [camelCase_loop].
    replace (String.length pre <? String.length (pre ++ String c rest))%nat
      with true
      by (symmetry; apply Nat.ltb_lt; rewrite length_append; simpl; lia).
    rewrite byte_at_append. cbn [bind].
    rewrite camelCase_body_appends. cbn [camelCase_from].
    destruct (camelCase_body c "" b) as [out b'] eqn:E. cbn [fst snd].
    rewrite <- append_snoc.
    replace (String.length pre + 1)
      with (String.length (pre ++ String c ""))
      by (rewrite length_append; reflexivity).
    rewrite IH by (simpl in Hfuel; lia).
    now rewrite append_assoc.
Qed.

(** [camelCase] always returns, and what it returns is the loop's output
    from the first byte with the flag set. *)
Lemma camelCase_returns (s : string) :
  camelCase s = Some (camelCase_from true s).
Proof.
  unfold camelCase. destruct (String.eqb_spec s "") as [->|_].
  - reflexivity.
  - apply (camelCase_loop_from s "" "" true). lia.
Qed.

(** An underscore starts a new segment whatever came before. *)
Lemma camelCase_from_underscore (p s : string) (b : bool) :
  camelCase_from b (p ++ String "_" s) =
  camelCase_from b p ++ camelCase_from true s.
Proof.
  revert b. induction p as [|c p IH]; intros b.
  - reflexivity.
  - cbn [append camelCase_from].
    destruct (camelCase_body c "" b) as [out b'].
    now rewrite IH, append_assoc.
Qed.

(** The body on an ASCII byte other than the underscore. *)
Lemma camelCase_body_ascii (c : ascii) (b : bool) :
  (byte_val c < 128)%N -> c <> "_"%char ->
  camelCase_body c "" b =
  (String (if b then upper c else c) "", false).
Proof.
  intros Hc Hu. unfold camelCase_body.
  apply Ascii.eqb_neq in Hu. rewrite Hu.
  destruct b.
  - fold (is_lower c). destruct (is_lower c) eqn:Hl.
    + destruct (byte_sub_lower c Hl) as [-> Hup]. cbn [append].
      rewrite string_of_byte_ascii; [reflexivity|].
      apply ident_char_ascii. unfold is_ident_char.
      rewrite Hup. now rewrite orb_true_r.
    + rewrite (upper_not_lower c Hl). cbn [append].
      now rewrite string_of_byte_ascii.
  - cbn [append]. now rewrite string_of_byte_ascii.
Qed.

Lemma split_underscore_cons (s : string) :
  exists seg segs, split_underscore s = seg :: segs.
Proof.
  destruct s as [|c s]; simpl; [now eauto|].
  destruct (Ascii.eqb c "_"); [now eauto|].
  destruct (split_underscore s); now eauto.
Qed.

(** On identifiers the loop is the specification's split, capitalize and
    concatenate; entered with the flag clear it leaves the first segment
    as it is. *)
Lemma camelCase_from_split (s : string) :
  is_identifier s = true ->
  forall b seg segs,
    split_underscore s = seg :: segs ->
    camelCase_from b s =
    (if b then capitalize seg else seg) ++ join (map capitalize segs).
Proof.
  induction s as [|c s IH]; intros Hid b seg segs Hsplit.
  - simpl in Hsplit. injection Hsplit as <- <-. now destruct b.
  - simpl in Hid. apply andb_true_iff in Hid as [Hc Hs].
    cbn [split_underscore] in Hsplit. cbn [camelCase_from].
    destruct (split_underscore_cons s) as (seg' & segs' & E).
    rewrite E in Hsplit.
    destruct (Ascii.eqb_spec c "_") as [->|Hu].
    + injection Hsplit as <- <-. cbn [camelCase_body Ascii.eqb Bool.eqb].
      cbn [append map join fold_right].
      rewrite (IH Hs true seg' segs' E). now destruct b.
    + injection Hsplit as <- <-.
      rewrite (camelCase_body_ascii c b (ident_char_ascii c Hc) Hu).
      rewrite (IH Hs false seg' segs' E). now destruct b.
Qed.

Lemma camelCase_from_spec (s : string) :
  is_identifier s = true -> camelCase_from true s = spec_camelCase s.
Proof.
  intros Hid. unfold spec_camelCase.
  destruct (split_underscore_cons s) as (seg & segs & E).
  rewrite E. exact (camelCase_from_split s Hid true seg segs E).
Qed.

(** The output of the loop on an identifier holds no underscore. *)
Lemma camelCase_from_no_underscore (s : string) :
  is_identifier s = true ->
  forall b, ~ occurs "_"%char (camelCase_from b s).
Proof.
  induction s as [|c s IH]; intros Hid b; [simpl; tauto|].
  simpl in Hid. apply andb_true_iff in Hid as [Hc Hs].
  cbn [camelCase_from].
  destruct (Ascii.eqb_spec c "_") as [->|Hu].
  - cbn [camelCase_body Ascii.eqb Bool.eqb append]. now apply IH.
  - rewrite (camelCase_body_ascii c b (ident_char_ascii c Hc) Hu).
    cbn [append occurs]. intros [E|H]; [|now apply (IH Hs false)].
    destruct b; [|now apply Hu].
    now apply (proj2 (upper_ident c Hc Hu)).
Qed.

End Normalizer.

(** C2.  On every string of ASCII letters, digits and underscores,
    [camelCase] returns the string the specification describes: the input
    split on underscores, the first character of every segment
    capitalized, the segments concatenated with no separator.  No
    underscore is left in the output and an empty segment adds nothing;
    the empty string gives the empty string, ["user_id"] gives ["UserId"]
    and ["__a_b__"] gives ["AB"].  The function returns on every string
    whatever its bytes: no index is out of range. *)
Theorem camelCase_normalizes :
  (forall s, is_identifier s = true ->
     camelCase s = Some (spec_camelCase s) /\
     ~ occurs "_"%char (spec_camelCase s)) /\
  (forall s, exists r, camelCase s = Some r) /\
  camelCase "" = Some "" /\
  camelCase "user_id" = Some "UserId" /\
  camelCase "__a_b__" = Some "AB".
Proof.
  split; [|split; [|repeat split]].
  - intros s Hid. rewrite camelCase_returns.
    rewrite <- (camelCase_from_spec s Hid). split; [reflexivity|].
    now apply camelCase_from_no_underscore.
  - intros s. eexists. apply camelCase_returns.
Qed.

Lemma camelCase_normalizes_witness :
  is_identifier "get_http_2xx_" = true /\
  camelCase "get_http_2xx_" = Some "GetHttp2xx".
Proof.
  split; [reflexivity|].
  exact (proj1 (proj1 camelCase_normalizes "get_http_2xx_" eq_refl)).
Defined.

(** C10.  Only the lower-case ASCII letters ['a']..['z'] are capitalized
    (by subtracting 32).  A digit or an upper-case letter that starts a
    segment, at the start of the input or after an underscore, is copied
    as it is and clears the pending capitalization, so the character after
    it is copied as it is too: ["user_2fa"] gives ["User2fa"]. *)
Theorem camelCase_first_char_consumes_flag :
  (forall c result, is_lower c = true ->
     camelCase_body c result true = (result ++ String (upper c) "", false) /\
     upper c <> c) /\
  (forall c result, is_digit c = true \/ is_upper c = true ->
     camelCase_body c result true = (result ++ String c "", false)) /\
  (forall (p r : string) (c d : ascii),
     is_digit c = true \/ is_upper c = true ->
     is_ident_char d = true -> d <> "_"%char ->
     exists R,
       camelCase (String c (String d r)) = Some (String c (String d R)) /\
       forall P, camelCase p = Some P ->
         camelCase (p ++ String "_" (String c (String d r))) =
         Some (P ++ String c (String d R))) /\
  camelCase "user_2fa" = Some "User2fa".
Proof.
  assert (Hplain : forall c, is_digit c = true \/ is_upper c = true ->
            (byte_val c < 128)%N /\ c <> "_"%char /\ is_lower c = false).
  { intros c H. unfold is_digit, is_upper in H.
    rewrite !byte_between_spec in H. cbn in H.
    repeat split.
    - lia.
    - intros ->. cbn in H. lia.
    - destruct (is_lower c) eqn:Hl; [|reflexivity].
      unfold is_lower in Hl. rewrite byte_between_spec in Hl.
      cbn in Hl. lia. }
  assert (Hbody : forall c result, is_digit c = true \/ is_upper c = true ->
            camelCase_body c result true = (result ++ String c "", false)).
  { intros c result H. destruct (Hplain c H) as (Ha & Hu & Hl).
    rewrite camelCase_body_appends, (camelCase_body_ascii c true Ha Hu).
    now rewrite (upper_not_lower c Hl). }
  split; [|split; [exact Hbody|split; [|reflexivity]]].
  - intros c result Hl.
    assert (Hid : is_ident_char c = true)
      by (unfold is_ident_char; now rewrite Hl).
    assert (Hu : c <> "_"%char) by (intros ->; discriminate Hl).
    rewrite camelCase_body_appends.
    rewrite (camelCase_body_ascii c true (ident_char_ascii c Hid) Hu).
    split; [reflexivity|].
    destruct (byte_sub_lower c Hl) as [_ Hup]. intros E. rewrite E in Hup.
    unfold is_lower, is_upper in *. rewrite byte_between_spec in *.
    cbn in *. lia.
  - intros p r c d Hc Hd Hdu. exists (camelCase_from false r).
    assert (E : camelCase_from true (String c (String d r)) =
                String c (String d (camelCase_from false r))).
    { cbn [camelCase_from].
      rewrite (Hbody c "" Hc).
      rewrite (camelCase_body_ascii d false (ident_char_ascii d Hd) Hdu).
      reflexivity. }
    split.
    + now rewrite camelCase_returns, E.
    + intros P HP. rewrite camelCase_returns in HP. injection HP as <-.
      now rewrite camelCase_returns, camelCase_from_underscore, E.
Qed.

Lemma camelCase_first_char_consumes_flag_witness :
  (is_digit "2" = true \/ is_upper "2" = true) /\
  camelCase_body "2" "User" true = ("User2", false) /\
  exists R, camelCase "2fa" = Some (String "2" (String "f" R)).
Proof.
  pose proof camelCase_first_char_consumes_flag as (_ & Hbody & Hrun & _).
  split; [left; reflexivity|]. split.
  - exact (Hbody "2"%char "User" (or_introl eq_refl)).
  - destruct (Hrun "user" "a" "2"%char "f"%char (or_introl eq_refl) eq_refl)
      as (R & HR & _); [discriminate|].
    exists R. exact HR.
Defined.

(** ** The type resolver *)

Section TypeName.

(** Counting down over a tail that holds no ['.'] reaches the index
    where the tail starts, without a panic. *)
Lemma getTypeName_loop_skip (rest : string) :
  forall pre,
    ~ occurs "."%char rest ->
    getTypeName_loop (pre ++ rest) (String.length pre + String.length rest)
    = getTypeName_loop (pre ++ rest) (String.length pre).
Proof.
  induction rest as [|c rest IH]; intros pre Hno.
  - simpl. now rewrite Nat.add_0_r.
  - simpl in Hno.
    rewrite <- append_snoc.
    replace (String.length pre + String.length (String c rest))
      with (String.length (pre ++ String c "") + String.length rest)
      by (rewrite length_append; simpl; lia).
    rewrite IH by tauto.
    rewrite length_append, append_snoc. simpl String.length.
    rewrite Nat.add_1_r. cbn [getTypeName_loop].
    rewrite byte_at_append. cbn [bind].
    destruct (Ascii.eqb_spec c ".") as [E|_]; [|reflexivity].
    exfalso. apply Hno. now left.
Qed.

(** The text after the last ['.']. *)
Lemma getTypeName_after_last_dot (p r : string) :
  ~ occurs "."%char r -> getTypeName (p ++ String "." r) = Some r.
Proof.
  intros Hno. unfold getTypeName.
  rewrite <- append_snoc, length_append.
  rewrite getTypeName_loop_skip by assumption.
  rewrite length_append, append_snoc. simpl String.length.
  rewrite Nat.add_1_r. cbn [getTypeName_loop].
  rewrite byte_at_append. cbn [bind Ascii.eqb Bool.eqb].
  rewrite <- append_snoc.
  replace (String.length p + 1) with (String.length (p ++ String "." ""))
    by (rewrite length_append; reflexivity).
  apply slice_from_append.
Qed.

Lemma getTypeName_no_dot (s : string) :
  ~ occurs "."%char s -> getTypeName s = Some s.
Proof.
  intros Hno. unfold getTypeName.
  exact (getTypeName_loop_skip s "" Hno).
Qed.

(** A string holds no ['.'] or splits at its last one. *)
Lemma last_dot_split (s : string) :
  ~ occurs "."%char s \/
  exists p r, s = p ++ String "." r /\ ~ occurs "."%char r.
Proof.
  induction s as [|c s [Hno | (p & r & -> & Hr)]].
  - left. simpl. tauto.
  - destruct (Ascii.eqb_spec c ".") as [->|Hc].
    + right. exists "", s. now split.
    + left. simpl. tauto.
  - right. exists (String c p), r. now split.
Qed.

Lemma getTypeName_returns (s : string) : exists r, getTypeName s = Some r.
Proof.
  destruct (last_dot_split s) as [Hno | (p & r & -> & Hr)].
  - exists s. now apply getTypeName_no_dot.
  - exists r. now apply getTypeName_after_last_dot.
Qed.

End TypeName.

(** C4.  [getTypeName] returns the text after the last ['.'] of its
    argument, or the whole argument when it holds no ['.']; it returns on
    every string (no index or slice bound is out of range), and the empty
    string gives the empty string. *)
Theorem getTypeName_local_name :
  (forall p r, ~ occurs "."%char r ->
     getTypeName (p ++ String "." r) = Some r) /\
  (forall s, ~ occurs "."%char s -> getTypeName s = Some s) /\
  (forall s, exists r, getTypeName s = Some r) /\
  getTypeName "" = Some "".
Proof.
  repeat split.
  - exact getTypeName_after_last_dot.
  - exact getTypeName_no_dot.
  - exact getTypeName_returns.
Qed.

Lemma getTypeName_local_name_witness :
  ~ occurs "."%char "Inner" /\
  getTypeName ".pkg.Outer.Inner" = Some "Inner" /\
  getTypeName "Inner" = Some "Inner".
Proof.
  assert (H : ~ occurs "."%char "Inner")
    by (simpl; intros [E|[E|[E|[E|[E|[]]]]]]; discriminate E).
  split; [exact H|]. split.
  - exact (proj1 getTypeName_local_name ".pkg.Outer" "Inner" H).
  - exact (proj1 (proj2 getTypeName_local_name) "Inner" H).
Defined.

Section Resolver.

(** [getGoType] is the specification's table followed by its wrapper,
    for the local name [getTypeName] returns. *)
Lemma getGoType_spec (field : FieldDescriptorProto) (localName : string) :
  getTypeName (Field_GetTypeName field) = Some localName ->
  getGoType field =
  Some (spec_wrap (Field_GetLabel field)
          (spec_baseType (Field_GetType field) localName)).
Proof.
  intros Hn. destruct field as [name label kind ref].
  unfold getGoType, spec_wrap, spec_baseType, scalar_table.
  cbn [Field_GetLabel Field_GetType Field_GetTypeName lookup] in *.
  rewrite Hn. cbn [bind].
  repeat match goal with
         | |- context [(kind =? ?k)%Z] =>
             destruct (Z.eqb_spec kind k) as [->|?];
             [destruct (label =? LABEL_REPEATED)%Z; reflexivity|]
         end.
  destruct (label =? LABEL_REPEATED)%Z; reflexivity.
Qed.

Lemma getGoType_returns (field : FieldDescriptorProto) :
  exists t, getGoType field = Some t.
Proof.
  destruct (getTypeName_returns (Field_GetTypeName field)) as [n Hn].
  eexists. now apply getGoType_spec with (localName := n).
Qed.

End Resolver.

(** C3.  [getGoType] resolves the base type first: the scalar kinds by the
    fixed table, a message kind to ["*"] followed by the local name of its
    type reference, an enum kind to the local name.  Only then, when the
    label is repeated, it puts ["[]"] in front of the resolved type.  A
    repeated message field is a sequence of nullable references
    (["[]*T"]), a repeated int32 field is ["[]int32"]. *)
Theorem getGoType_base_then_repeated :
  (forall field, exists localName,
     getTypeName (Field_GetTypeName field) = Some localName /\
     getGoType field =
     Some (spec_wrap (Field_GetLabel field)
             (spec_baseType (Field_GetType field) localName))) /\
  (forall name ref localName,
     getTypeName ref = Some localName ->
     getGoType (mkField name LABEL_REPEATED TYPE_MESSAGE ref) =
     Some ("[]*" ++ localName)) /\
  getGoType (mkField "ids" LABEL_REPEATED TYPE_INT32 "") = Some "[]int32" /\
  getGoType (mkField "name" LABEL_OPTIONAL TYPE_STRING "") = Some "string" /\
  getGoType (mkField "inner" LABEL_OPTIONAL TYPE_MESSAGE ".pkg.Outer.Inner")
  = Some "*Inner" /\
  getGoType (mkField "items" LABEL_REPEATED TYPE_MESSAGE ".pkg.T")
  = Some "[]*T".
Proof.
  split; [|split; [|repeat split]].
  - intros field.
    destruct (getTypeName_returns (Field_GetTypeName field)) as [n Hn].
    exists n. split; [exact Hn | now apply getGoType_spec].
  - intros name ref localName Hn.
    exact (getGoType_spec (mkField name LABEL_REPEATED TYPE_MESSAGE ref)
             localName Hn).
Qed.

Lemma getGoType_base_then_repeated_witness :
  getTypeName ".shop.Order.Line" = Some "Line" /\
  getGoType (mkField "lines" LABEL_REPEATED TYPE_MESSAGE ".shop.Order.Line")
  = Some "[]*Line".
Proof.
  split; [reflexivity|].
  exact (proj1 (proj2 getGoType_base_then_repeated)
           "lines" ".shop.Order.Line" "Line" eq_refl).
Defined.

(** C7.  For a field whose kind is none of the recognized scalar, message
    and enum kinds (a named kind the switch leaves out, or a number that
    names no kind), [getGoType] returns the placeholder ["interface{}"],
    with ["[]"] in front when the field is repeated; and [getGoType]
    returns a type for every field, whatever its kind. *)
Theorem getGoType_unknown_kind_placeholder :
  forall field,
    is_recognized (Field_GetType field) = false ->
    getGoType field =
    Some (if (Field_GetLabel field =? LABEL_REPEATED)%Z
          then "[]interface{}" else "interface{}") /\
    forall other, exists t, getGoType other = Some t.
Proof.
  intros field Hk. split; [|exact getGoType_returns].
  destruct field as [name label kind ref].
  unfold getGoType, is_recognized, scalar_table in *.
  cbn [Field_GetLabel Field_GetType Field_GetTypeName lookup] in *.
  repeat match goal with
         | |- context [(kind =? ?k)%Z] =>
             destruct (Z.eqb_spec kind k) as [->|?]; [discriminate Hk|]
         end.
  cbn [bind]. destruct (label =? LABEL_REPEATED)%Z; reflexivity.
Qed.

Lemma getGoType_unknown_kind_placeholder_witness :
  is_recognized TYPE_GROUP = false /\
  getGoType (mkField "legacy" LABEL_REPEATED TYPE_GROUP ".pkg.Legacy")
  = Some "[]interface{}" /\
  is_recognized 99%Z = false /\
  getGoType (mkField "odd" LABEL_OPTIONAL 99%Z "") = Some "interface{}".
Proof.
  split; [reflexivity|]. split.
  - exact (proj1 (getGoType_unknown_kind_placeholder
                    (mkField "legacy" LABEL_REPEATED TYPE_GROUP ".pkg.Legacy")
                    eq_refl)).
  - split; [reflexivity|].
    exact (proj1 (getGoType_unknown_kind_placeholder
                    (mkField "odd" LABEL_OPTIONAL 99%Z "") eq_refl)).
Defined.

(** ** The message emitter *)

Section MessageEmitter.

Lemma generateMessage_field_returns (field : FieldDescriptorProto) :
  exists line, generateMessage_field field = Some line.
Proof.
  unfold generateMessage_field.
  rewrite camelCase_returns.
  destruct (getGoType_returns field) as [t ->].
  cbn [bind]. now eexists.
Qed.

(** The loop over the fields appends one line per field, in order. *)
Lemma generateMessage_fields_lines (fields : list FieldDescriptorProto) :
  forall code, exists lines,
    Forall2 (fun f line => generateMessage_field f = Some line) fields lines /\
    generateMessage_fields fields code = Some (code ++ join lines).
Proof.
  induction fields as [|f fields IH]; intros code.
  - exists []. split; [constructor|]. simpl. now rewrite append_nil_r.
  - destruct (generateMessage_field_returns f) as [line Hl].
    destruct (IH (code ++ line)) as (lines & Hall & Hgen).
    exists (line :: lines). split; [now constructor|].
    cbn [generateMessage_fields]. rewrite Hl. cbn [bind].
    rewrite Hgen. cbn [join fold_right]. now rewrite append_assoc.
Qed.

(** The loop over the nested descriptors appends the text of each, in
    order, as soon as the recursive call returns on each. *)
Lemma generateMessage_nested_outs (gen : DescriptorProto -> option string)
    (l : list DescriptorProto) :
  Forall (fun n => exists out, gen n = Some out) l ->
  forall code, exists outs,
    Forall2 (fun n out => gen n = Some out) l outs /\
    generateMessage_nested gen l code = Some (code ++ join outs).
Proof.
  induction 1 as [|n l [out Hn] _ IH]; intros code.
  - exists []. split; [constructor|]. simpl. now rewrite append_nil_r.
  - destruct (IH (code ++ out)) as (outs & Hall & Hgen).
    exists (out :: outs). split; [now constructor|].
    cbn [generateMessage_nested]. rewrite Hn. cbn [bind].
    fold (generateMessage_nested gen). rewrite Hgen.
    cbn [join fold_right]. now rewrite append_assoc.
Qed.

(** The recursion over the descriptor tree ends: the emitter returns a
    text for every message and prefix. *)
Lemma generateMessage_returns (msg : DescriptorProto) :
  forall prefix, exists out, generateMessage msg prefix = Some out.
Proof.
  induction msg as [name fields nested IH] using DescriptorProto_tree_ind.
  intros prefix. cbn [generateMessage].
  match goal with
  | |- context [generateMessage_fields fields ?c] =>
      destruct (generateMessage_fields_lines fields c) as (lines & _ & ->)
  end.
  cbn [bind].
  edestruct (generateMessage_nested_outs
               (fun n => generateMessage n ((prefix ++ name) ++ "_")) nested)
    as (outs & _ & ->).
  - eapply Forall_impl; [|exact IH]. intros n Hn. apply Hn.
  - now eexists.
Qed.

(** The shape of the emitted text: the message's own type definition, then
    the texts of the nested descriptors. *)
Lemma generateMessage_shape (name : string)
    (fields : list FieldDescriptorProto) (nested : list DescriptorProto)
    (prefix : string) :
  exists members defs,
    Forall2 (fun f line => generateMessage_field f = Some line)
      fields members /\
    Forall2 (fun n out =>
               generateMessage n ((prefix ++ name) ++ "_") = Some out)
      nested defs /\
    generateMessage (mkMessage name fields nested) prefix =
    Some (type_definition (prefix ++ name) members ++ join defs).
Proof.
  cbn [generateMessage].
  match goal with
  | |- context [generateMessage_fields fields ?c] =>
      destruct (generateMessage_fields_lines fields c)
        as (members & Hmembers & ->)
  end.
  cbn [bind].
  edestruct (generateMessage_nested_outs
               (fun n => generateMessage n ((prefix ++ name) ++ "_")) nested)
    as (defs & Hdefs & ->).
  - apply Forall_forall. intros n _. apply generateMessage_returns.
  - exists members, defs. split; [exact Hmembers|]. split; [exact Hdefs|].
    unfold type_definition. f_equal. now rewrite !append_assoc.
Qed.

Lemma type_definition_ends_with_blank_line (msgName : string)
    (members : list string) :
  ends_with_blank_line (type_definition msgName members).
Proof.
  unfold type_definition.
  exists ("// Generated code for message: " ++ msgName ++ nl
          ++ "type " ++ msgName ++ " struct {" ++ nl ++ join members).
  now rewrite !append_assoc.
Qed.

Lemma ends_with_blank_line_join (outs : list string) :
  Forall ends_with_blank_line outs ->
  forall base, ends_with_blank_line base ->
    ends_with_blank_line (base ++ join outs).
Proof.
  induction 1 as [|out outs [body ->] _ IH]; intros base Hbase.
  - simpl. now rewrite append_nil_r.
  - cbn [join fold_right]. rewrite <- append_assoc. apply IH.
    exists (base ++ body). now rewrite append_assoc.
Qed.

(** Every emitted block, nested definitions included, ends with a closing
    brace line followed by an empty line. *)
Lemma generateMessage_ends_with_blank_line (msg : DescriptorProto) :
  forall prefix out,
    generateMessage msg prefix = Some out -> ends_with_blank_line out.
Proof.
  induction msg as [name fields nested IH] using DescriptorProto_tree_ind.
  intros prefix out Hout.
  destruct (generateMessage_shape name fields nested prefix)
    as (members & defs & _ & Hdefs & E).
  assert (Eout : out = type_definition (prefix ++ name) members ++ join defs)
    by congruence.
  subst out. clear E Hout.
  apply ends_with_blank_line_join;
    [|apply type_definition_ends_with_blank_line].
  induction Hdefs as [|n o nested defs Hn _ IHo]; [constructor|].
  inversion IH as [|? ? Hhead Htail]; subst.
  constructor; [exact (Hhead _ _ Hn) | exact (IHo Htail)].
Qed.

End MessageEmitter.

(** C5.  [generateMessage] emits the type definition named
    [prefix ++ name], with one member per field in the order of the
    descriptor (the normalized name, the resolved type and the schema name
    in the annotation), and after it the texts of the nested descriptors in
    their order, each emitted with the prefix [prefix ++ name ++ "_"].  So
    [Outer] holding [Inner] holding [Deep] gives [Outer], [Outer_Inner],
    [Outer_Inner_Deep], and a second nested message of [Outer] comes after
    them: depth first, parents before children. *)
Theorem generateMessage_fields_then_nested :
  (forall name fields nested prefix, exists members defs,
     Forall2 (fun f m => exists fieldName fieldType,
                camelCase (Field_GetName f) = Some fieldName /\
                getGoType f = Some fieldType /\
                m = member_line fieldName fieldType (Field_GetName f))
       fields members /\
     Forall2 (fun n def =>
                generateMessage n ((prefix ++ name) ++ "_") = Some def)
       nested defs /\
     generateMessage (mkMessage name fields nested) prefix =
     Some (type_definition (prefix ++ name) members ++ join defs)) /\
  generateMessage Sample.outer "" =
  Some (type_definition "Outer"
          [member_line "UserId" "string" "user_id";
           member_line "Inner" "[]*Inner" "inner"]
        ++ type_definition "Outer_Inner"
             [member_line "ZipCode" "int32" "zip_code"]
        ++ type_definition "Outer_Inner_Deep" []
        ++ type_definition "Outer_Sibling" []).
Proof.
  split; [|reflexivity].
  intros name fields nested prefix.
  destruct (generateMessage_shape name fields nested prefix)
    as (members & defs & Hmembers & Hdefs & E).
  exists members, defs. split; [|now split].
  clear E. induction Hmembers as [|f m fields members Hf _ IH];
    constructor; [|exact IH].
  unfold generateMessage_field in Hf.
  destruct (camelCase (Field_GetName f)) as [fieldName|];
    [|discriminate Hf].
  destruct (getGoType f) as [fieldType|]; [|discriminate Hf].
  cbn [bind] in Hf. exists fieldName, fieldType.
  repeat split. unfold member_line. congruence.
Qed.

(** ** The file emitter *)

Section FileEmitter.

(** The loop over the top-level messages appends the block of each, in
    order. *)
Lemma generateFile_messages_blocks (msgs : list DescriptorProto) :
  forall code, exists blocks,
    Forall2 (fun msg block => generateMessage msg "" = Some block)
      msgs blocks /\
    generateFile_messages msgs code = Some (code ++ join blocks).
Proof.
  induction msgs as [|msg msgs IH]; intros code.
  - exists []. split; [constructor|]. simpl. now rewrite append_nil_r.
  - destruct (generateMessage_returns msg "") as [block Hb].
    destruct (IH (code ++ block)) as (blocks & Hall & Hgen).
    exists (block :: blocks). split; [now constructor|].
    cbn [generateFile_messages]. rewrite Hb. cbn [bind].
    rewrite Hgen. cbn [join fold_right]. now rewrite append_assoc.
Qed.

Lemma generateFile_blocks (file : FileDescriptorProto) :
  exists blocks,
    Forall2 (fun msg block => generateMessage msg "" = Some block)
      (File_MessageType file) blocks /\
    generateFile file =
    Some (("package " ++ package_of file ++ nl ++ nl) ++ join blocks).
Proof.
  unfold generateFile.
  match goal with
  | |- context [generateFile_messages _ ?c] =>
      destruct (generateFile_messages_blocks (File_MessageType file) c)
        as (blocks & Hall & ->)
  end.
  exists blocks. split; [exact Hall|].
  unfold package_of. now destruct (File_GetPackage file).
Qed.

Lemma generateFile_returns (file : FileDescriptorProto) :
  exists content, generateFile file = Some content.
Proof. destruct (generateFile_blocks file) as (? & _ & ->). now eexists. Qed.

End FileEmitter.

(** C6.  [generateFile] starts with the package line, naming the package
    of the descriptor or ["main"] when that is empty, followed by an empty
    line; then come the blocks [generateMessage] emits for the top-level
    messages with the empty prefix, in their order.  Every block ends with
    its closing brace line and an empty line, which separates it from the
    next block. *)
Theorem generateFile_package_then_blocks :
  forall file, exists blocks,
    Forall2 (fun msg block => generateMessage msg "" = Some block)
      (File_MessageType file) blocks /\
    Forall ends_with_blank_line blocks /\
    (File_GetPackage file = "" ->
     generateFile file =
     Some (("package main" ++ nl ++ nl) ++ join blocks)) /\
    (File_GetPackage file <> "" ->
     generateFile file =
     Some (("package " ++ File_GetPackage file ++ nl ++ nl) ++ join blocks)).
Proof.
  intros file.
  destruct (generateFile_blocks file) as (blocks & Hall & E).
  exists blocks. split; [exact Hall|]. split; [|split].
  - clear E. induction Hall as [|msg block msgs blocks Hb _ IH];
      constructor; [|exact IH].
    exact (generateMessage_ends_with_blank_line msg "" block Hb).
  - intros Hp. rewrite E. unfold package_of. now rewrite Hp.
  - intros Hp. rewrite E. unfold package_of.
    now destruct (File_GetPackage file).
Qed.

Lemma generateFile_package_then_blocks_witness :
  File_GetPackage Sample.file_nopkg = "" /\
  exists blocks,
    Forall ends_with_blank_line blocks /\
    generateFile Sample.file_nopkg =
    Some (("package main" ++ nl ++ nl) ++ join blocks).
Proof.
  split; [reflexivity|].
  destruct (generateFile_package_then_blocks Sample.file_nopkg)
    as (blocks & _ & Hends & Hmain & _).
  exists blocks. split; [exact Hends | exact (Hmain eq_refl)].
Defined.

(** ** The plugin driver *)

Section Driver.

Variable pool : list FileDescriptorProto.

(** The scan stops at the first descriptor with the requested name. *)
Lemma Generate_scan_first_match (name : string) (f : FileDescriptorProto) :
  Generate_scan pool name = Some f -> first_match pool name f.
Proof.
  unfold first_match. induction pool as [|g rest IH]; [discriminate|].
  cbn [Generate_scan].
  destruct (String.eqb_spec (File_GetName g) name) as [Hg|Hg]; intros H.
  - injection H as ->. exists [], rest. repeat split; [exact Hg|].
    intros ? [].
  - destruct (IH H) as (before & after & -> & Hf & Hbefore).
    exists (g :: before), after. repeat split; [exact Hf|].
    intros h [<-|Hin]; [exact Hg | now apply Hbefore].
Qed.

Lemma Generate_scan_matched (name : string) :
  matched pool name =
  match Generate_scan pool name with Some _ => true | None => false end.
Proof.
  unfold matched. induction pool as [|g rest IH]; [reflexivity|].
  cbn [Generate_scan existsb].
  now destruct (String.eqb (File_GetName g) name).
Qed.

(** The outer loop appends, in request order, the record of every name the
    scan finds, and nothing for the others; it keeps the capability field
    as it is. *)
Lemma Generate_loop_records (names : list string) :
  forall resp, exists recs,
    Forall2 (record_for pool) (filter (matched pool) names) recs /\
    Generate_loop pool names resp =
    Some (mkResponse (Resp_File resp ++ recs) (Resp_SupportedFeatures resp)).
Proof.
  induction names as [|name names IH]; intros resp.
  - exists []. split; [constructor|]. cbn [Generate_loop].
    rewrite app_nil_r. now destruct resp.
  - cbn [Generate_loop filter]. rewrite Generate_scan_matched.
    destruct (Generate_scan pool name) as [file|] eqn:Hscan.
    + destruct (generateFile_returns file) as [content Hc].
      rewrite Hc. cbn [bind].
      destruct (IH (mkResponse
                      (Resp_File resp
                         ++ [mkResponseFile (name ++ ".generated.go") content])
                      (Resp_SupportedFeatures resp)))
        as (recs & Hrecs & ->).
      exists (mkResponseFile (name ++ ".generated.go") content :: recs).
      split.
      * constructor; [|exact Hrecs].
        exists file, content. repeat split; [|exact Hc].
        now apply Generate_scan_first_match.
      * cbn [Resp_File Resp_SupportedFeatures].
        now rewrite <- app_assoc.
    + exact (IH resp).
Qed.

End Driver.

Lemma Generate_response (req : CodeGeneratorRequest) :
  exists recs,
    Forall2 (record_for (ProtoFile req))
      (filter (matched (ProtoFile req)) (FileToGenerate req)) recs /\
    Generate req =
    Some (mkResponse recs
            (Some (uint64 FEATURE_PROTO3_OPTIONAL))).
Proof.
  unfold Generate.
  destruct (Generate_loop_records (ProtoFile req) (FileToGenerate req)
              (mkResponse [] None)) as (recs & Hrecs & ->).
  exists recs. split; [exact Hrecs | reflexivity].
Qed.

(** C1.  [Generate] returns a response for every request.  Its file
    records are, in request order, one record for every requested name
    that some descriptor of the pool carries, and none for the other
    names: the record's name is the requested name followed by
    [".generated.go"] and its content is what [generateFile] returns for
    the first descriptor of the pool with that name.  In the sample the
    name missing from the pool is skipped, the two others come in request
    order, and the second descriptor named ["a.proto"] is not used. *)
Theorem Generate_one_record_per_matched_name :
  (forall req, exists resp,
     Generate req = Some resp /\
     Forall2 (record_for (ProtoFile req))
       (filter (matched (ProtoFile req)) (FileToGenerate req))
       (Resp_File resp)) /\
  (exists content_a content_b,
     generateFile Sample.file_a = Some content_a /\
     generateFile Sample.file_nopkg = Some content_b /\
     option_map Resp_File (Generate Sample.request) =
     Some [mkResponseFile "b.proto.generated.go" content_b;
           mkResponseFile "a.proto.generated.go" content_a]).
Proof.
  split.
  - intros req. destruct (Generate_response req) as (recs & Hrecs & ->).
    eexists. split; [reflexivity | exact Hrecs].
  - destruct (generateFile_returns Sample.file_a) as [content_a Ha].
    destruct (generateFile_returns Sample.file_nopkg) as [content_b Hb].
    exists content_a, content_b. split; [exact Ha|]. split; [exact Hb|].
    unfold Generate, Sample.request. cbn [ProtoFile FileToGenerate].
    cbn [Generate_loop Generate_scan Sample.file_a Sample.file_nopkg
         Sample.file_shadowed File_GetName String.eqb Ascii.eqb Bool.eqb].
    fold Sample.file_a Sample.file_nopkg.
    rewrite Ha, Hb. reflexivity.
Qed.

(** C8.  The response [Generate] returns has its capability field set to
    the value of the feature "proto3 optional" (the number 1, bit 0),
    whatever the request: also when no requested name is found in the pool
    and the response holds no file record. *)
Theorem Generate_declares_proto3_optional :
  forall req, exists resp,
    Generate req = Some resp /\
    Resp_SupportedFeatures resp =
    Some (uint64 FEATURE_PROTO3_OPTIONAL) /\
    uint64 FEATURE_PROTO3_OPTIONAL = 1%Z /\
    (forallb (fun name => negb (matched (ProtoFile req) name))
       (FileToGenerate req) = true ->
     Resp_File resp = []).
Proof.
  intros req. destruct (Generate_response req) as (recs & Hrecs & ->).
  eexists. split; [reflexivity|]. repeat split.
  cbn [Resp_File]. intros Hnone.
  assert (E : filter (matched (ProtoFile req)) (FileToGenerate req) = []).
  { clear Hrecs. induction (FileToGenerate req) as [|name names IH];
      [reflexivity|].
    cbn [forallb] in Hnone. apply andb_true_iff in Hnone as [Hn Hrest].
    cbn [filter]. apply negb_true_iff in Hn. rewrite Hn. now apply IH. }
  rewrite E in Hrecs. now inversion Hrecs.
Qed.

Lemma Generate_declares_proto3_optional_witness :
  forallb (fun name => negb (matched (ProtoFile Sample.request_unmatched) name))
    (FileToGenerate Sample.request_unmatched) = true /\
  exists resp,
    Generate Sample.request_unmatched = Some resp /\
    Resp_SupportedFeatures resp = Some 1%Z /\
    Resp_File resp = [].
Proof.
  split; [reflexivity|].
  destruct (Generate_declares_proto3_optional Sample.request_unmatched)
    as (resp & Hgen & Hcap & _ & Hfiles).
  exists resp. split; [exact Hgen|]. split; [exact Hcap|].
  exact (Hfiles eq_refl).
Defined.

(** * Further properties of the code *)

(** ** The identifier normalizer on arbitrary bytes *)

Section NormalizerBytes.

(** What one pass appends, byte by byte: nothing for an underscore, the
    upper-case letter for a lower-case letter met with the flag set, the
    byte itself for another ASCII byte, two bytes for a byte from 128
    up. *)
Lemma camelCase_body_cases (c : ascii) (b : bool) :
  let out := fst (camelCase_body c "" b) in
  ~ occurs "_"%char out /\
  String.length out + (if is_underscore c then 1 else 0)
  = 1 + (if is_high c then 1 else 0) /\
  snd (camelCase_body c "" b) = is_underscore c /\
  is_ascii_string out = negb (is_high c).
Proof.
  destruct c as [[] [] [] [] [] [] [] []], b; vm_compute;
    (split; [|repeat split]); intuition discriminate.
Qed.

Lemma camelCase_from_no_underscore_bytes (s : string) :
  forall b, ~ occurs "_"%char (camelCase_from b s).
Proof.
  induction s as [|c s IH]; intros b; [simpl; tauto|].
  cbn [camelCase_from].
  destruct (camelCase_body_cases c b) as (Hno & _).
  destruct (camelCase_body c "" b) as [out b']. cbn [fst] in Hno.
  intros H. clear -H Hno IH.
  induction out as [|x out IHo]; cbn [append occurs] in *.
  - exact (IH b' H).
  - destruct H as [E|H]; [apply Hno; now left|].
    apply IHo; [tauto | exact H].
Qed.

Lemma camelCase_from_length (s : string) :
  forall b,
    String.length (camelCase_from b s) + count_bytes is_underscore s
    = String.length s + count_bytes is_high s.
Proof.
  induction s as [|c s IH]; intros b; [reflexivity|].
  cbn [camelCase_from count_bytes String.length].
  destruct (camelCase_body_cases c b) as (_ & Hlen & _).
  destruct (camelCase_body c "" b) as [out b']. cbn [fst] in Hlen.
  rewrite length_append. specialize (IH b'). lia.
Qed.

End NormalizerBytes.

(** X1.  Whatever the bytes of the input, [camelCase] returns a string
    without any underscore. *)
Theorem camelCase_never_emits_underscore :
  forall s, exists out,
    camelCase s = Some out /\ ~ occurs "_"%char out.
Proof.
  intros s. exists (camelCase_from true s).
  split; [apply camelCase_returns | apply camelCase_from_no_underscore_bytes].
Qed.

(** X2.  The length of the result: every underscore is dropped, every
    other byte below 128 gives one byte, and every byte from 128 up gives
    two (its UTF-8 encoding), so such a byte is not copied as it is. *)
Theorem camelCase_output_length :
  forall s, exists out,
    camelCase s = Some out /\
    String.length out + count_bytes is_underscore s
    = String.length s + count_bytes is_high s.
Proof.
  intros s. exists (camelCase_from true s).
  split; [apply camelCase_returns | apply camelCase_from_length].
Qed.

(** X3.  An underscore cuts the work in two: the result for
    [p ++ "_" ++ s] is the result for [p] followed by the result for
    [s]. *)
Theorem camelCase_splits_at_underscore :
  forall p s, exists P S,
    camelCase p = Some P /\ camelCase s = Some S /\
    camelCase (p ++ "_" ++ s) = Some (P ++ S).
Proof.
  intros p s. exists (camelCase_from true p), (camelCase_from true s).
  rewrite !camelCase_returns. repeat split.
  cbn [append]. now rewrite camelCase_from_underscore.
Qed.

(** X4.  Field names that differ only by an underscore in front, at the
    end, or doubled get the same member name. *)
Theorem camelCase_ignores_extra_underscores :
  forall p s,
    camelCase ("_" ++ s) = camelCase s /\
    camelCase (s ++ "_") = camelCase s /\
    camelCase (p ++ "__" ++ s) = camelCase (p ++ "_" ++ s).
Proof.
  intros p s. rewrite !camelCase_returns. cbn [append]. repeat split.
  - rewrite camelCase_from_underscore. cbn [camelCase_from].
    now rewrite append_nil_r.
  - now rewrite !camelCase_from_underscore.
Qed.

Section NormalizerAscii.

Lemma is_high_false (c : ascii) :
  is_high c = false -> (byte_val c < 128)%N.
Proof. unfold is_high. intros H. apply N.leb_gt in H. exact H. Qed.

Lemma upper_not_lower_case (c : ascii) : is_lower (upper c) = false.
Proof. destruct c as [[] [] [] [] [] [] [] []]; reflexivity. Qed.

(** On ASCII input the output is ASCII. *)
Lemma camelCase_from_ascii (s : string) :
  is_ascii_string s = true ->
  forall b, is_ascii_string (camelCase_from b s) = true.
Proof.
  induction s as [|c s IH]; intros Hs b; [reflexivity|].
  cbn [is_ascii_string] in Hs. apply andb_true_iff in Hs as [Hc Hs].
  cbn [camelCase_from].
  destruct (camelCase_body_cases c b) as (_ & _ & _ & Hout).
  destruct (camelCase_body c "" b) as [out b']. cbn [fst] in Hout.
  rewrite Hc in Hout. clear -Hout IH Hs.
  induction out as [|x out IHo]; cbn [append is_ascii_string] in *.
  - now apply IH.
  - apply andb_true_iff in Hout as [Hx Hout]. rewrite Hx. now apply IHo.
Qed.

(** With the flag set, the output does not start with a lower-case
    letter. *)
Lemma camelCase_from_head (s : string) :
  is_ascii_string s = true ->
  camelCase_from true s = "" \/
  exists c rest, camelCase_from true s = String c rest /\ is_lower c = false.
Proof.
  induction s as [|c s IH]; intros Hs; [now left|].
  cbn [is_ascii_string] in Hs. apply andb_true_iff in Hs as [Hc Hs].
  apply negb_true_iff in Hc. cbn [camelCase_from].
  destruct (Ascii.eqb_spec c "_") as [->|Hu].
  - cbn [camelCase_body Ascii.eqb Bool.eqb append]. now apply IH.
  - rewrite (camelCase_body_ascii c true (is_high_false c Hc) Hu).
    right. exists (upper c), (camelCase_from false s).
    split; [reflexivity | apply upper_not_lower_case].
Qed.

(** Text without underscores goes through the loop unchanged once the
    flag is clear. *)
Lemma camelCase_from_plain (t : string) :
  is_ascii_string t = true -> ~ occurs "_"%char t ->
  camelCase_from false t = t.
Proof.
  induction t as [|c t IH]; intros Ht Hno; [reflexivity|].
  cbn [is_ascii_string] in Ht. apply andb_true_iff in Ht as [Hc Ht].
  apply negb_true_iff in Hc. cbn [occurs] in Hno. cbn [camelCase_from].
  rewrite (camelCase_body_ascii c false (is_high_false c Hc))
    by (intros ->; apply Hno; now left).
  cbn [append]. rewrite IH; [reflexivity | exact Ht | tauto].
Qed.

End NormalizerAscii.

(** X5.  On ASCII input the normalizer is idempotent: its result is
    normalized to itself. *)
Theorem camelCase_idempotent_on_ascii :
  forall s out,
    is_ascii_string s = true ->
    camelCase s = Some out ->
    camelCase out = Some out.
Proof.
  intros s out Hs Hout. rewrite camelCase_returns in Hout.
  injection Hout as <-. rewrite camelCase_returns. f_equal.
  pose proof (camelCase_from_ascii s Hs true) as Hascii.
  pose proof (camelCase_from_no_underscore_bytes s true) as Hno.
  destruct (camelCase_from_head s Hs) as [E | (c & rest & E & Hl)];
    rewrite E in *; [reflexivity|].
  cbn [is_ascii_string] in Hascii.
  apply andb_true_iff in Hascii as [Hc Hrest].
  apply negb_true_iff in Hc. cbn [occurs] in Hno. cbn [camelCase_from].
  rewrite (camelCase_body_ascii c true (is_high_false c Hc))
    by (intros ->; apply Hno; now left).
  rewrite (upper_not_lower c Hl). cbn [append].
  rewrite camelCase_from_plain; [reflexivity | exact Hrest | tauto].
Qed.

Lemma camelCase_idempotent_on_ascii_witness :
  is_ascii_string "max_retry_count" = true /\
  camelCase "max_retry_count" = Some "MaxRetryCount" /\
  camelCase "MaxRetryCount" = Some "MaxRetryCount".
Proof.
  split; [reflexivity|]. split; [reflexivity|].
  exact (camelCase_idempotent_on_ascii "max_retry_count" "MaxRetryCount"
           eq_refl eq_refl).
Defined.

(** X6.  For a field name of ASCII letters, digits and underscores the
    member name is empty (the name held underscores only) or starts with
    an upper-case letter or a digit; it never starts with a lower-case
    letter. *)
Theorem camelCase_starts_upper_or_digit :
  forall s,
    is_identifier s = true ->
    exists out,
      camelCase s = Some out /\
      (out = "" \/
       exists c rest,
         out = String c rest /\ (is_upper c || is_digit c) = true).
Proof.
  intros s Hid. exists (camelCase_from true s).
  split; [apply camelCase_returns|].
  induction s as [|c s IH]; [now left|].
  simpl in Hid. apply andb_true_iff in Hid as [Hc Hs].
  cbn [camelCase_from].
  destruct (Ascii.eqb_spec c "_") as [->|Hu].
  - cbn [camelCase_body Ascii.eqb Bool.eqb append]. now apply IH.
  - rewrite (camelCase_body_ascii c true (ident_char_ascii c Hc) Hu).
    right. exists (upper c), (camelCase_from false s).
    split; [reflexivity|].
    destruct (is_lower c) eqn:Hl.
    + destruct (byte_sub_lower c Hl) as [_ ->]. reflexivity.
    + rewrite (upper_not_lower c Hl).
      unfold is_ident_char in Hc. rewrite Hl in Hc.
      apply Ascii.eqb_neq in Hu. rewrite Hu in Hc.
      now rewrite orb_false_r in Hc.
Qed.

Lemma camelCase_starts_upper_or_digit_witness :
  is_identifier "_2fa_code" = true /\
  exists out,
    camelCase "_2fa_code" = Some out /\
    (out = "" \/
     exists c rest, out = String c rest /\ (is_upper c || is_digit c) = true).
Proof.
  split; [reflexivity|].
  exact (camelCase_starts_upper_or_digit "_2fa_code" eq_refl).
Defined.

(** ** The type resolver on arbitrary references *)

(** X7.  The local name [getTypeName] returns is a suffix of the reference
    that holds no ['.'], and resolving it again gives it back. *)
Theorem getTypeName_dot_free_suffix :
  forall s, exists p r,
    getTypeName s = Some r /\ s = p ++ r /\ ~ occurs "."%char r /\
    getTypeName r = Some r.
Proof.
  intros s. destruct (last_dot_split s) as [Hno | (p & r & -> & Hr)].
  - exists "", s. rewrite getTypeName_no_dot by assumption. now repeat split.
  - exists (p ++ "."), r. rewrite getTypeName_after_last_dot by assumption.
    rewrite append_snoc, getTypeName_no_dot by assumption. now repeat split.
Qed.

Section Qualifier.

Lemma getTypeName_qualified (p s : string) :
  getTypeName (p ++ "." ++ s) = getTypeName s.
Proof.
  cbn [append].
  destruct (last_dot_split s) as [Hno | (q & r & -> & Hr)].
  - now rewrite getTypeName_after_last_dot, getTypeName_no_dot.
  - replace (p ++ String "." (q ++ String "." r))
      with ((p ++ String "." q) ++ String "." r)
      by (now rewrite append_assoc).
    now rewrite !getTypeName_after_last_dot.
Qed.

End Qualifier.

(** X8.  Qualifying a reference further does not change its local name:
    the names of [p ++ "." ++ s] and of [s] are the same, whatever [p];
    so references that end alike resolve alike. *)
Theorem getTypeName_ignores_qualifier :
  forall p q s,
    getTypeName (p ++ "." ++ s) = getTypeName s /\
    getTypeName (p ++ "." ++ s) = getTypeName (q ++ "." ++ s).
Proof.
  intros p q s. now rewrite !getTypeName_qualified.
Qed.

Section ResolverEdges.

Lemma getTypeName_empty_iff (s : string) :
  getTypeName s = Some "" <-> s = "" \/ exists p, s = p ++ ".".
Proof.
  split.
  - intros H. destruct (last_dot_split s) as [Hno | (p & r & -> & Hr)].
    + rewrite getTypeName_no_dot in H by assumption. left. congruence.
    + rewrite getTypeName_after_last_dot in H by assumption.
      injection H as ->. right. now exists p.
  - intros [->|[p ->]]; [reflexivity|].
    apply getTypeName_after_last_dot. simpl. tauto.
Qed.

End ResolverEdges.

(** X9.  The type [getGoType] returns is the empty string in one case
    only: a field of enum kind that is not repeated and whose type
    reference is empty or ends with ['.'].  Every other field gets a
    non-empty type. *)
Theorem getGoType_empty_iff :
  forall field,
    getGoType field = Some "" <->
    Field_GetType field = TYPE_ENUM /\
    Field_GetLabel field <> LABEL_REPEATED /\
    (Field_GetTypeName field = "" \/
     exists p, Field_GetTypeName field = p ++ ".").
Proof.
  intros field. rewrite <- getTypeName_empty_iff.
  destruct (getTypeName_returns (Field_GetTypeName field)) as [n Hn].
  rewrite (getGoType_spec field n Hn), Hn.
  destruct field as [name label kind ref].
  cbn [Field_GetLabel Field_GetType Field_GetTypeName].
  unfold spec_wrap, spec_baseType, scalar_table. cbn [lookup].
  destruct (Z.eqb_spec label LABEL_REPEATED) as [Hl|Hl].
  - split; [discriminate | tauto].
  - assert (Hcase : forall base : string,
              (kind = TYPE_ENUM -> base = n) ->
              (kind <> TYPE_ENUM -> base <> "") ->
              Some base = Some "" <->
              kind = TYPE_ENUM /\ label <> LABEL_REPEATED /\ Some n = Some "").
    { intros base Henum Hother. split.
      - intros H. injection H as ->.
        destruct (Z.eq_dec kind TYPE_ENUM) as [E|E].
        + rewrite <- (Henum E). now repeat split.
        + now destruct (Hother E).
      - intros (E & _ & H). now rewrite (Henum E). }
    apply Hcase.
    + intros ->. reflexivity.
    + intros Hne.
      repeat match goal with
             | |- context [(kind =? ?k)%Z] =>
                 destruct (Z.eqb_spec kind k) as [->|?];
                 [first [discriminate | now contradiction Hne] |]
             end.
      discriminate.
Qed.



(** ** The message emitter over the whole tree *)

Section Flatten.

(** The text of a message is the concatenation of the definitions of the
    descriptors of its tree, in the order of [flatten]. *)
Lemma generateMessage_flatten (msg : DescriptorProto) :
  forall prefix, exists blocks,
    Forall2 definition_of (flatten prefix msg) blocks /\
    generateMessage msg prefix = Some (join blocks).
Proof.
  induction msg as [name fields nested IH] using DescriptorProto_tree_ind.
  intros prefix.
  destruct (generateMessage_shape name fields nested prefix)
    as (members & defs & Hmembers & Hdefs & ->).
  cbn [flatten].
  assert (Hnested : exists blocks,
             Forall2 definition_of
               (flat_map (flatten ((prefix ++ name) ++ "_")) nested) blocks /\
             join defs = join blocks).
  { clear Hmembers.
    induction Hdefs as [|n def nested defs Hn _ IHdefs].
    - exists []. split; [constructor | reflexivity].
    - inversion IH as [|? ? Hhead Htail]; subst.
      destruct (Hhead ((prefix ++ name) ++ "_")) as (b1 & Hb1 & E1).
      destruct (IHdefs Htail) as (b2 & Hb2 & E2).
      exists (b1 ++ b2)%list. split.
      + cbn [flat_map]. now apply Forall2_app.
      + cbn [join fold_right]. fold (join defs).
        assert (Ej : forall l1 l2 : list string,
                   join (l1 ++ l2) = join l1 ++ join l2).
        { intros l1 l2. induction l1 as [|x l1 IHl]; cbn; [reflexivity|].
          fold (join (l1 ++ l2)) (join l1).
          now rewrite IHl, append_assoc. }
        rewrite Ej, <- E2. congruence. }
  destruct Hnested as (blocks & Hblocks & ->).
  exists (type_definition (prefix ++ name) members :: blocks). split.
  - constructor; [|exact Hblocks]. exists members. now split.
  - reflexivity.
Qed.

Lemma flatten_names_prefixed (msg : DescriptorProto) :
  forall prefix d,
    In d (flatten prefix msg) -> exists rest, fst d = prefix ++ rest.
Proof.
  induction msg as [name fields nested IH] using DescriptorProto_tree_ind.
  intros prefix d [<-|Hin].
  - now exists name.
  - apply in_flat_map in Hin as (n & Hn & Hd).
    rewrite Forall_forall in IH.
    destruct (IH n Hn _ d Hd) as [rest ->].
    exists (name ++ "_" ++ rest). now rewrite !append_assoc.
Qed.

End Flatten.

(** X11.  The text [generateMessage] returns is the concatenation of one
    type definition per descriptor of the tree of the message, parents
    before children and children in their order; each definition carries
    the members of its own descriptor and the name that joins the names of
    the enclosing messages and its own with underscores. *)
Theorem generateMessage_one_definition_per_descriptor :
  forall msg prefix, exists blocks,
    Forall2 definition_of (flatten prefix msg) blocks /\
    generateMessage msg prefix = Some (join blocks) /\
    List.length blocks = List.length (flatten prefix msg).
Proof.
  intros msg prefix.
  destruct (generateMessage_flatten msg prefix) as (blocks & Hall & E).
  exists blocks. split; [exact Hall|]. split; [exact E|].
  symmetry. exact (Forall2_length Hall).
Qed.

(** X12.  The definitions in the text emitted for a message are those of
    the descriptors of its tree, one block each in their order, with the
    members of their own fields; and the name of every one of them, those
    of the nested messages included, starts with the prefix the message
    was given followed by the name of the message. *)
Theorem generateMessage_names_start_with_parent :
  forall name fields nested prefix, exists blocks,
    generateMessage (mkMessage name fields nested) prefix
    = Some (join blocks) /\
    Forall2 (fun d block =>
               definition_of d block /\
               exists rest, fst d = (prefix ++ name) ++ rest)
      (flatten prefix (mkMessage name fields nested)) blocks.
Proof.
  intros name fields nested prefix.
  destruct (generateMessage_flatten (mkMessage name fields nested) prefix)
    as (blocks & Hall & E).
  exists blocks. split; [exact E|].
  assert (Hnames : Forall (fun d => exists rest,
                              fst d = (prefix ++ name) ++ rest)
                     (flatten prefix (mkMessage name fields nested))).
  { apply Forall_forall. intros d [<-|Hin].
    - exists "". cbn [fst]. now rewrite append_nil_r.
    - apply in_flat_map in Hin as (n & _ & Hd).
      destruct (flatten_names_prefixed n _ d Hd) as [rest ->].
      exists ("_" ++ rest). now rewrite !append_assoc. }
  clear E. induction Hall as [|d block ds blocks Hd _ IH];
    [constructor|].
  inversion Hnames as [|? ? Hrest Htail]; subst.
  constructor; [now split | exact (IH Htail)].
Qed.

(** ** The file emitter *)

(** X13.  Messages added at the end of a file only add text at the end:
    the text for the messages [l1 ++ l2] is the text for [l1] followed by
    the blocks of [l2]. *)
Theorem generateFile_appends_blocks :
  forall name pkg l1 l2, exists content blocks,
    generateFile (mkFile name pkg l1) = Some content /\
    Forall2 (fun msg block => generateMessage msg "" = Some block)
      l2 blocks /\
    generateFile (mkFile name pkg (l1 ++ l2)) = Some (content ++ join blocks).
Proof.
  intros name pkg l1 l2. unfold generateFile.
  cbn [File_GetPackage File_MessageType].
  match goal with
  | |- context [generateFile_messages l1 ?c] => generalize c
  end.
  induction l1 as [|msg l1 IH]; intros code.
  - cbn [generateFile_messages app].
    destruct (generateFile_messages_blocks l2 code) as (blocks & Hall & ->).
    now exists code, blocks.
  - cbn [generateFile_messages app].
    destruct (generateMessage_returns msg "") as [block ->]. cbn [bind].
    apply IH.
Qed.

(** ** The driver and the descriptor pool *)

Section DriverPool.

(** The loop reads the pool only through the scan of the requested
    names. *)
Lemma Generate_loop_ext (pool1 pool2 : list FileDescriptorProto)
    (names : list string) :
  (forall n, In n names -> Generate_scan pool1 n = Generate_scan pool2 n) ->
  forall resp,
    Generate_loop pool1 names resp = Generate_loop pool2 names resp.
Proof.
  induction names as [|name names IH]; intros Hscan resp; [reflexivity|].
  cbn [Generate_loop]. rewrite (Hscan name) by now left.
  destruct (Generate_scan pool2 name) as [file|].
  - destruct (generateFile file) as [content|]; [|reflexivity].
    cbn [bind]. apply IH. intros n Hn. apply Hscan. now right.
  - apply IH. intros n Hn. apply Hscan. now right.
Qed.

Lemma Generate_ext (pool1 pool2 : list FileDescriptorProto)
    (names : list string) :
  (forall n, In n names -> Generate_scan pool1 n = Generate_scan pool2 n) ->
  Generate (mkRequest names pool1) = Generate (mkRequest names pool2).
Proof.
  intros Hscan. unfold Generate. cbn [ProtoFile FileToGenerate].
  now rewrite (Generate_loop_ext pool1 pool2 names Hscan).
Qed.

(** Dropping a descriptor does not change the scan for another name. *)
Lemma Generate_scan_drop_other (l1 l2 : list FileDescriptorProto)
    (g : FileDescriptorProto) (n : string) :
  File_GetName g <> n ->
  Generate_scan (l1 ++ g :: l2) n = Generate_scan (l1 ++ l2) n.
Proof.
  intros Hg. induction l1 as [|f l1 IH]; cbn [app Generate_scan].
  - apply String.eqb_neq in Hg. now rewrite Hg.
  - now rewrite IH.
Qed.

(** Dropping a descriptor does not change the scan for its own name when
    an earlier descriptor carries that name. *)
Lemma Generate_scan_drop_shadowed (l1 l2 : list FileDescriptorProto)
    (g : FileDescriptorProto) (n : string) :
  matched l1 (File_GetName g) = true ->
  Generate_scan (l1 ++ g :: l2) n = Generate_scan (l1 ++ l2) n.
Proof.
  intros Hm. destruct (String.eqb_spec (File_GetName g) n) as [<-|Hn];
    [|now apply Generate_scan_drop_other].
  induction l1 as [|f l1 IH]; cbn [app Generate_scan]; [discriminate Hm|].
  cbn [matched existsb] in Hm. fold (matched l1 (File_GetName g)) in Hm.
  destruct (String.eqb (File_GetName f) (File_GetName g));
    [reflexivity | now apply IH].
Qed.

(** With distinct names in the pool, the scan does not depend on the order
    of the pool. *)
Lemma Generate_scan_permutation (pool pool' : list FileDescriptorProto) :
  Permutation pool pool' ->
  NoDup (map File_GetName pool) ->
  forall n, Generate_scan pool n = Generate_scan pool' n.
Proof.
  induction 1 as [|f l l' Hperm IH|f g l|l l' l'' H1 IH1 H2 IH2];
    intros Hnd n.
  - reflexivity.
  - cbn [Generate_scan]. cbn [map] in Hnd. inversion Hnd; subst.
    now rewrite IH.
  - cbn [Generate_scan]. cbn [map] in Hnd. inversion Hnd as [|? ? Hnot _].
    destruct (String.eqb_spec (File_GetName f) n) as [Ef|_];
      destruct (String.eqb_spec (File_GetName g) n) as [Eg|_];
      try reflexivity.
    exfalso. apply Hnot. left. congruence.
  - rewrite IH1 by assumption. apply IH2.
    apply (Permutation_NoDup (l := map File_GetName l));
      [now apply Permutation_map | assumption].
Qed.

(** Records already in the response stay in front of what the loop
    adds. *)
Lemma Generate_loop_frame (pool : list FileDescriptorProto)
    (names : list string) :
  forall resp out pre,
    Generate_loop pool names resp = Some out ->
    Generate_loop pool names
      (mkResponse (pre ++ Resp_File resp) (Resp_SupportedFeatures resp))
    = Some (mkResponse (pre ++ Resp_File out) (Resp_SupportedFeatures out)).
Proof.
  induction names as [|name names IH]; intros resp out pre H.
  - cbn [Generate_loop] in *. now injection H as <-.
  - cbn [Generate_loop] in *.
    destruct (Generate_scan pool name) as [file|]; [|now apply IH].
    destruct (generateFile file) as [content|]; [|discriminate H].
    cbn [bind] in *. cbn [Resp_File Resp_SupportedFeatures].
    rewrite <- app_assoc.
    exact (IH _ out pre H).
Qed.

Lemma Generate_loop_app (pool : list FileDescriptorProto)
    (names1 names2 : list string) :
  forall resp,
    Generate_loop pool (names1 ++ names2) resp =
    (r <- Generate_loop pool names1 resp ;; Generate_loop pool names2 r).
Proof.
  induction names1 as [|name names1 IH]; intros resp; [reflexivity|].
  cbn [app Generate_loop].
  destruct (Generate_scan pool name) as [file|]; [|apply IH].
  destruct (generateFile file) as [content|]; [|reflexivity].
  cbn [bind]. apply IH.
Qed.

End DriverPool.

(** X14.  The records for the requested names [names1 ++ names2] are the
    records for [names1] followed by the records for [names2]; so a name
    requested twice gets its record twice. *)
Theorem Generate_records_of_appended_names :
  forall pool names1 names2, exists resp1 resp2,
    Generate (mkRequest names1 pool) = Some resp1 /\
    Generate (mkRequest names2 pool) = Some resp2 /\
    Generate (mkRequest (names1 ++ names2) pool) =
    Some (mkResponse (Resp_File resp1 ++ Resp_File resp2)
            (Resp_SupportedFeatures resp1)).
Proof.
  intros pool names1 names2. unfold Generate.
  cbn [ProtoFile FileToGenerate].
  destruct (Generate_loop_records pool names1 (mkResponse [] None))
    as (recs1 & _ & E1).
  destruct (Generate_loop_records pool names2 (mkResponse [] None))
    as (recs2 & _ & E2).
  cbn [Resp_File Resp_SupportedFeatures app] in E1, E2.
  rewrite Generate_loop_app, E1, E2. cbn [bind].
  pose proof (Generate_loop_frame pool names2 _ _ recs1 E2) as E.
  cbn [Resp_File Resp_SupportedFeatures] in E.
  rewrite app_nil_r in E. rewrite E. cbn [bind Resp_File].
  eexists. eexists. repeat split.
Qed.

(** X15.  When the descriptors of the pool have distinct names, the
    response does not depend on the order of the pool. *)
Theorem Generate_pool_order_irrelevant :
  forall names pool pool',
    NoDup (map File_GetName pool) ->
    Permutation pool pool' ->
    Generate (mkRequest names pool) = Generate (mkRequest names pool').
Proof.
  intros names pool pool' Hnd Hperm. apply Generate_ext.
  intros n _. now apply Generate_scan_permutation.
Qed.

Lemma Generate_pool_order_irrelevant_witness :
  NoDup (map File_GetName [Sample.file_a; Sample.file_nopkg]) /\
  Permutation [Sample.file_a; Sample.file_nopkg]
              [Sample.file_nopkg; Sample.file_a] /\
  Generate (mkRequest ["a.proto"; "b.proto"]
              [Sample.file_a; Sample.file_nopkg]) =
  Generate (mkRequest ["a.proto"; "b.proto"]
              [Sample.file_nopkg; Sample.file_a]).
Proof.
  assert (Hnd : NoDup (map File_GetName [Sample.file_a; Sample.file_nopkg])).
  { repeat constructor; simpl; intuition discriminate. }
  assert (Hp : Permutation [Sample.file_a; Sample.file_nopkg]
                           [Sample.file_nopkg; Sample.file_a])
    by apply perm_swap.
  split; [exact Hnd|]. split; [exact Hp|].
  exact (Generate_pool_order_irrelevant _ _ _ Hnd Hp).
Defined.

(** X16.  A descriptor of the pool whose name is not requested (a
    dependency) has no influence on the response: the response is the same
    without it. *)
Theorem Generate_ignores_unrequested_descriptor :
  forall names l1 g l2,
    ~ In (File_GetName g) names ->
    Generate (mkRequest names (l1 ++ g :: l2)) =
    Generate (mkRequest names (l1 ++ l2)).
Proof.
  intros names l1 g l2 Hg. apply Generate_ext.
  intros n Hn. apply Generate_scan_drop_other. congruence.
Qed.

Lemma Generate_ignores_unrequested_descriptor_witness :
  ~ In (File_GetName Sample.file_nopkg) ["a.proto"] /\
  Generate (mkRequest ["a.proto"] [Sample.file_nopkg; Sample.file_a]) =
  Generate (mkRequest ["a.proto"] [Sample.file_a]).
Proof.
  assert (H : ~ In (File_GetName Sample.file_nopkg) ["a.proto"])
    by (simpl; intuition discriminate).
  split; [exact H|].
  exact (Generate_ignores_unrequested_descriptor
           ["a.proto"] [] Sample.file_nopkg [Sample.file_a] H).
Defined.

(** X17.  A descriptor that comes after another descriptor of the same
    name is never used: the response is the same without it. *)
Theorem Generate_ignores_shadowed_descriptor :
  forall names l1 g l2,
    matched l1 (File_GetName g) = true ->
    Generate (mkRequest names (l1 ++ g :: l2)) =
    Generate (mkRequest names (l1 ++ l2)).
Proof.
  intros names l1 g l2 Hm. apply Generate_ext.
  intros n _. now apply Generate_scan_drop_shadowed.
Qed.

Lemma Generate_ignores_shadowed_descriptor_witness :
  matched [Sample.file_a; Sample.file_nopkg]
    (File_GetName Sample.file_shadowed) = true /\
  Generate Sample.request =
  Generate (mkRequest (FileToGenerate Sample.request)
              [Sample.file_a; Sample.file_nopkg]).
Proof.
  split; [reflexivity|].
  exact (Generate_ignores_shadowed_descriptor
           (FileToGenerate Sample.request)
           [Sample.file_a; Sample.file_nopkg] Sample.file_shadowed []
           eq_refl).
Defined.

(** ** The entry points *)

Section EntryPointFacts.

Variable Unmarshal : string -> result CodeGeneratorRequest.
Variable Marshal : CodeGeneratorResponse -> result string.

Ltac io_step := cbn [io_bind io_ret io_emit io_stop Println].

Lemma call_Generate_returns (req : CodeGeneratorRequest) :
  exists resp, Generate req = Some resp /\ call_Generate req = io_ret resp.
Proof.
  destruct (Generate_response req) as (recs & _ & E).
  eexists. split; [exact E|]. unfold call_Generate. now rewrite E.
Qed.

Lemma debugMode_files_trace (files : list CodeGeneratorResponse_File) :
  debugMode_files files =
  (flat_map (fun file =>
               [Stdout (nl ++ "--- " ++ RespFile_Name file ++ " ---" ++ nl);
                Stdout (RespFile_Content file ++ nl)]) files,
   inl tt).
Proof.
  induction files as [|file files IH]; [reflexivity|].
  cbn [debugMode_files flat_map]. rewrite IH. reflexivity.
Qed.

(** What [debugMode] does on a readable, decodable capture. *)
Lemma debugMode_report (env : Environment) (data : string)
    (req : CodeGeneratorRequest) :
  ReadFile env plugin_input_path = Ok data ->
  Unmarshal data = Ok req ->
  exists resp,
    Generate req = Some resp /\
    io_run (debugMode Unmarshal env) = (debug_report req resp, Returned).
Proof.
  intros Hread Hdec.
  destruct (call_Generate_returns req) as (resp & Hgen & Hcall).
  exists resp. split; [exact Hgen|].
  unfold debugMode. rewrite Hread. io_step. rewrite Hdec. io_step.
  rewrite Hcall. io_step. rewrite debugMode_files_trace. reflexivity.
Qed.

(** What [main] does in plugin mode on a readable, decodable input. *)
Lemma main_plugin_run (env : Environment) (input : string)
    (req : CodeGeneratorRequest) :
  Getenv env "DEBUG" <> "1" ->
  Stdin_ReadAll env = Ok input ->
  Unmarshal input = Ok req ->
  exists resp,
    Generate req = Some resp /\
    forall output,
      Marshal resp = Ok output ->
      io_run (main Unmarshal Marshal env) =
      (((if String.eqb (Getenv env "SAVE_INPUT") "1"
         then [WriteFile plugin_input_path input perm_0644] else [])
          ++ [Stdout output])%list,
       Returned).
Proof.
  intros Hdebug Hin Hdec.
  destruct (call_Generate_returns req) as (resp & Hgen & Hcall).
  exists resp. split; [exact Hgen|]. intros output Hout.
  unfold main. apply String.eqb_neq in Hdebug.
  rewrite Hdebug, Hin. cbn [io_bind io_ret].
  destruct (String.eqb (Getenv env "SAVE_INPUT") "1");
    io_step; rewrite Hdec; io_step; rewrite Hcall; io_step;
    rewrite Hout; reflexivity.
Qed.

(** X18.  In plugin mode ([DEBUG] is not ["1"]) with a readable and
    decodable input, [main] writes to standard output exactly the encoding
    of the response [Generate] returns for the decoded request, once, and
    returns; before that it writes the capture file when [SAVE_INPUT] is
    ["1"], and nothing else. *)
Theorem main_writes_encoded_response :
  forall env input req,
    Getenv env "DEBUG" <> "1" ->
    Stdin_ReadAll env = Ok input ->
    Unmarshal input = Ok req ->
    exists resp,
      Generate req = Some resp /\
      forall output,
        Marshal resp = Ok output ->
        io_run (main Unmarshal Marshal env) =
        (((if String.eqb (Getenv env "SAVE_INPUT") "1"
           then [WriteFile plugin_input_path input perm_0644] else [])
            ++ [Stdout output])%list,
         Returned).
Proof.
  intros env input req. apply main_plugin_run.
Qed.

(** X19.  When [main] panics, it has written nothing to standard output:
    no part of a response is emitted.  It panics only in plugin mode. *)
Theorem main_panic_leaves_stdout_empty :
  forall env,
    snd (io_run (main Unmarshal Marshal env)) = Panicked ->
    Getenv env "DEBUG" <> "1" /\
    forallb (fun a => negb (is_Stdout a))
      (fst (io_run (main Unmarshal Marshal env))) = true.
Proof.
  intros env. unfold main.
  destruct (String.eqb_spec (Getenv env "DEBUG") "1") as [Hd|Hd].
  - unfold debugMode.
    destruct (ReadFile env plugin_input_path) as [data|err];
      [|discriminate].
    io_step. destruct (Unmarshal data) as [req|err]; [|discriminate].
    io_step. destruct (call_Generate_returns req) as (resp & _ & ->).
    io_step. rewrite debugMode_files_trace. discriminate.
  - intros H. split; [exact Hd|]. revert H.
    destruct (Stdin_ReadAll env) as [input|err]; [|reflexivity].
    io_step.
    destruct (String.eqb (Getenv env "SAVE_INPUT") "1"); io_step;
      (destruct (Unmarshal input) as [req|err]; [|reflexivity]);
      io_step;
      destruct (call_Generate_returns req) as (resp & _ & ->);
      io_step;
      (destruct (Marshal resp) as [output|err];
       [discriminate | reflexivity]).
Qed.

(** X20.  With [SAVE_INPUT] set to ["1"] the input is captured before it
    is decoded: an input that cannot be decoded is still written to the
    capture file, with mode 0644, and only then [main] panics. *)
Theorem main_captures_undecodable_input :
  forall env input msg,
    Getenv env "DEBUG" <> "1" ->
    Getenv env "SAVE_INPUT" = "1" ->
    Stdin_ReadAll env = Ok input ->
    Unmarshal input = Err msg ->
    io_run (main Unmarshal Marshal env) =
    ([WriteFile "/tmp/plugin-input.bin" input 420%N], Panicked).
Proof.
  intros env input msg Hdebug Hsave Hin Hdec.
  unfold main. apply String.eqb_neq in Hdebug.
  rewrite Hdebug, Hin, Hsave. io_step. now rewrite Hdec.
Qed.

(** X21.  Replaying a capture shows the response of the captured run: if a
    plugin run with [SAVE_INPUT] set writes the capture file and encodes
    the response [resp], a debug run that reads this file back prints the
    names and contents of the records of the same [resp]. *)
Theorem debug_replays_captured_run :
  forall env env' input req,
    Getenv env "DEBUG" <> "1" ->
    Getenv env "SAVE_INPUT" = "1" ->
    Stdin_ReadAll env = Ok input ->
    Unmarshal input = Ok req ->
    Getenv env' "DEBUG" = "1" ->
    ReadFile env' plugin_input_path = Ok input ->
    exists resp,
      Generate req = Some resp /\
      io_run (main Unmarshal Marshal env') = (debug_report req resp, Returned) /\
      forall output,
        Marshal resp = Ok output ->
        io_run (main Unmarshal Marshal env) =
        ([WriteFile plugin_input_path input perm_0644; Stdout output],
         Returned).
Proof.
  intros env env' input req Hdebug Hsave Hin Hdec Hdebug' Hread.
  destruct (debugMode_report env' input req Hread Hdec)
    as (resp & Hgen & Hreport).
  exists resp. split; [exact Hgen|]. split.
  - unfold main. now rewrite Hdebug'.
  - intros output Hout.
    destruct (main_plugin_run env input req Hdebug Hin Hdec)
      as (resp' & Hgen' & Hrun).
    assert (resp' = resp) by congruence. subst resp'.
    rewrite (Hrun output Hout), Hsave. reflexivity.
Qed.

(** X22.  In debug mode [main] never panics and never writes a file.  It
    ends with [os.Exit(1)] exactly when the capture cannot be read or
    cannot be decoded, and then it has printed nothing but the banner on
    standard output; otherwise it returns. *)
Theorem main_debug_mode_outcome :
  forall env,
    Getenv env "DEBUG" = "1" ->
    let run := io_run (main Unmarshal Marshal env) in
    forallb (fun a => negb (is_WriteFile a)) (fst run) = true /\
    (snd run = Returned \/ snd run = Exited 1) /\
    (snd run = Exited 1 <->
     (exists err, ReadFile env plugin_input_path = Err err) \/
     (exists data err,
        ReadFile env plugin_input_path = Ok data /\
        Unmarshal data = Err err)) /\
    (snd run = Exited 1 ->
     filter is_Stdout (fst run) = [Stdout ("=== DEBUG MODE ===" ++ nl)]).
Proof.
  intros env Hdebug. unfold main. rewrite Hdebug.
  cbn [String.eqb Ascii.eqb Bool.eqb]. unfold debugMode.
  destruct (ReadFile env plugin_input_path) as [data|err].
  - io_step. destruct (Unmarshal data) as [req|err] eqn:Hdec.
    + io_step. destruct (call_Generate_returns req) as (resp & _ & ->).
      io_step. rewrite debugMode_files_trace. cbn.
      split; [|split; [now left|split; [split|discriminate]]].
      * induction (Resp_File resp) as [|f fs IH]; [reflexivity | exact IH].
      * discriminate.
      * intros [[err E]|(d & err & E1 & E2)]; congruence.
    + cbn. split; [reflexivity|]. split; [now right|].
      split; [|reflexivity]. split; [|reflexivity].
      intros _. right. now exists data, err.
  - cbn. split; [reflexivity|]. split; [now right|].
    split; [|reflexivity]. split; [|reflexivity].
    intros _. left. now exists err.
Qed.

End EntryPointFacts.

Lemma main_writes_encoded_response_witness :
  Getenv SampleRun.env_plugin "DEBUG" <> "1" /\
  exists resp output,
    Generate Sample.request = Some resp /\
    SampleRun.marshal resp = Ok output /\
    io_run (main SampleRun.unmarshal SampleRun.marshal SampleRun.env_plugin)
    = ([WriteFile "/tmp/plugin-input.bin" "<request>" 420%N; Stdout output],
       Returned).
Proof.
  assert (Hd : Getenv SampleRun.env_plugin "DEBUG" <> "1") by discriminate.
  split; [exact Hd|].
  destruct (main_writes_encoded_response
              SampleRun.unmarshal SampleRun.marshal SampleRun.env_plugin
              "<request>" Sample.request Hd eq_refl eq_refl)
    as (resp & Hgen & Hrun).
  exists resp. eexists. split; [exact Hgen|]. split; [reflexivity|].
  exact (Hrun _ eq_refl).
Defined.

Lemma main_panic_leaves_stdout_empty_witness :
  snd (io_run (main SampleRun.unmarshal SampleRun.marshal
                 SampleRun.env_garbage)) = Panicked /\
  forallb (fun a => negb (is_Stdout a))
    (fst (io_run (main SampleRun.unmarshal SampleRun.marshal
                    SampleRun.env_garbage))) = true.
Proof.
  split; [reflexivity|].
  exact (proj2 (main_panic_leaves_stdout_empty
                  SampleRun.unmarshal SampleRun.marshal
                  SampleRun.env_garbage eq_refl)).
Defined.

Lemma main_captures_undecodable_input_witness :
  Getenv SampleRun.env_garbage "SAVE_INPUT" = "1" /\
  io_run (main SampleRun.unmarshal SampleRun.marshal SampleRun.env_garbage)
  = ([WriteFile "/tmp/plugin-input.bin" "garbage" 420%N], Panicked).
Proof.
  split; [reflexivity|].
  apply (main_captures_undecodable_input
           SampleRun.unmarshal SampleRun.marshal SampleRun.env_garbage
           "garbage" "proto: cannot parse invalid wire-format data");
    [discriminate | reflexivity | reflexivity | reflexivity].
Defined.

Lemma debug_replays_captured_run_witness :
  Getenv SampleRun.env_debug "DEBUG" = "1" /\
  ReadFile SampleRun.env_debug plugin_input_path = Ok "<request>" /\
  exists resp,
    Generate Sample.request = Some resp /\
    io_run (main SampleRun.unmarshal SampleRun.marshal SampleRun.env_debug)
    = (debug_report Sample.request resp, Returned).
Proof.
  split; [reflexivity|]. split; [reflexivity|].
  assert (Hd : Getenv SampleRun.env_plugin "DEBUG" <> "1") by discriminate.
  destruct (debug_replays_captured_run
              SampleRun.unmarshal SampleRun.marshal
              SampleRun.env_plugin SampleRun.env_debug
              "<request>" Sample.request
              Hd eq_refl eq_refl eq_refl eq_refl eq_refl)
    as (resp & Hgen & Hreplay & _).
  exists resp. split; [exact Hgen | exact Hreplay].
Defined.

Lemma main_debug_mode_outcome_witness :
  Getenv SampleRun.env_debug_missing "DEBUG" = "1" /\
  snd (io_run (main SampleRun.unmarshal SampleRun.marshal
                 SampleRun.env_debug_missing)) = Exited 1.
Proof.
  split; [reflexivity|].
  destruct (main_debug_mode_outcome
              SampleRun.unmarshal SampleRun.marshal
              SampleRun.env_debug_missing eq_refl)
    as (_ & _ & Hexit & _).
  apply Hexit. left. eexists. reflexivity.
Defined.
